(** * Kamstrup meter protocol codec (Kamstrup_Powermeter_MQTT.ino)

    A shallow embedding of the request/response codec of the sketch
    [Software eksempler/Kamstrup_Powermeter_MQTT.ino]: the CRC-16 routine
    [crc_1021], the sender [kamSend], the receive loop [kamReceive], the reply
    decoder [kamDecode] and their caller [kamReadReg]; then the polling
    round [readKamstrup] and the connection code [setup_wifi], [setup_mqtt]
    and [publish], with the libraries they call as an environment that
    answers.

    Conventions of the embedding.
    - A C [byte] is a [Byte.byte]; [u8] gives its value as an integer and
      [byte_of_Z] is the narrowing conversion (reduction modulo 256).
    - [int], [long] and [unsigned long] are 32 bits wide on the ESP8266 the
      sketch targets.  Values are integers in [Z]; where an operation can
      leave the range of its type the wrap-around is written out
      ([long_of], [ulong_of]).
    - A C array is a list of the bytes written so far.  A store outside the
      array, or a read of an element that was never written, has no defined
      result in C; the embedding makes such an access an outcome of its own
      ([None], [RxOverrun], [RecvOverrun]) rather than inventing a value
      for it.
    - [float] results come in two forms.  Module [Decode] keeps the
      integer mantissa and gives the value as an exact rational ([Q]),
      without the rounding of [pow] and of the product: it serves where
      only the [return] taken and the mantissa matter.  Modules [F32] and
      [Float32] give the value in binary32 as the code computes it, with
      the C library's [pow] as a parameter. *)

From Stdlib Require Import ZArith List Lia Bool QArith.
From Stdlib Require Import Strings.Byte.
From Stdlib Require Strings.String.
From Stdlib Require Import Floats.SpecFloat.
Import ListNotations.

Local Open Scope Z_scope.

(** ** Machine integers and bytes *)

Module Mach.

(** Value of a [byte] (an unsigned 8-bit integer). *)
Definition u8 (b : byte) : Z := Z.of_N (Byte.to_N b).

(** Conversion of an integer to [byte]: the low eight bits are kept. *)
Definition byte_of_Z (z : Z) : byte :=
  match Byte.of_N (Z.to_N (z mod 256)) with
  | Some b => b
  | None => x00
  end.

(** Conversion to [long] (32-bit two's complement). *)
Definition long_of (z : Z) : Z := (z + 2 ^ 31) mod 2 ^ 32 - 2 ^ 31.

(** Conversion to [unsigned long] (32 bits). *)
Definition ulong_of (z : Z) : Z := z mod 2 ^ 32.

(** [b ^ 0xff] stored back into a [byte]. *)
Definition xor_ff (b : byte) : byte := byte_of_Z (Z.lxor (u8 b) 0xff).

End Mach.
Import Mach.

(** ** CRC-16, [crc_1021] *)

Module CRC.

(** One pass through the body of the [while (mask > 0)] loop, without the
    update of [mask]: shift [creg], bring in the bit of [b] selected by
    [mask], reduce when bit 16 is set. *)
Definition crc_bit (creg : Z) (b : byte) (mask : Z) : Z :=
  let creg := long_of (Z.shiftl creg 1) in
  let creg := if Z.land (u8 b) mask =? 0 then creg else Z.lor creg 1 in
  if Z.land creg 0x10000 =? 0 then creg
  else Z.lxor (Z.land creg 0xffff) 0x1021.

(** The loop [while (mask > 0) { ...; mask >>= 1; ... }]. *)
Fixpoint crc_while (fuel : nat) (b : byte) (mask creg : Z) : Z :=
  match fuel with
  | O => creg
  | S fuel' =>
      if 0 <? mask
      then crc_while fuel' b (Z.shiftr mask 1) (crc_bit creg b mask)
      else creg
  end.

(** The body of the [for] loop over the message, for the byte [b]:
    [mask] starts at [0x80] and is zero after eight passes. *)
Definition crc_byte (creg : Z) (b : byte) : Z := crc_while 8 b 0x80 creg.

(** [crc_1021(inmsg, len)] with [len] the length of [inmsg]. *)
Definition crc_1021 (inmsg : list byte) : Z := fold_left crc_byte inmsg 0.

(** The two checksum bytes [kamSend] stores: [c >> 8] and [c & 0xff]. *)
Definition crc_hi (c : Z) : byte := byte_of_Z (Z.shiftr c 8).
Definition crc_lo (c : Z) : byte := byte_of_Z (Z.land c 0xff).

End CRC.
Import CRC.

(** Sequencing of steps that may access memory outside an array. *)
Notation "x <- a ;; k" :=
  (match a with Some x => k | None => None end)
  (at level 61, a at next level, right associativity).

(** ** Configuration *)

Module Config.

(** [kregnums]: the register numbers polled, each a 16-bit [word]. *)
Definition kregnums : list Z :=
  [0x0001; 0x000d; 0x03ff; 0x0027; 0x041e; 0x041f; 0x0420;
   0x0434; 0x0435; 0x0436; 0x438; 0x439; 0x43a].

Definition NUMREGS : nat := 13.

(** [KAMTIMEOUT], in milliseconds. *)
Definition KAMTIMEOUT : Z := 1000.

(** Capacities of the arrays [txmsg] ([kamSend]), [rxdata] ([kamReceive])
    and [recvmsg] ([kamReadReg]). *)
Definition TXCAP : nat := 20.
Definition RXCAP : nat := 50.
Definition RECVCAP : nat := 40.

End Config.
Import Config.

(** ** Sending: [kamSend] and the request of [kamReadReg] *)

Module Send.

(** The bytes that are escaped on the wire. *)
Definition reserved (b : byte) : bool :=
  (u8 b =? 0x06) || (u8 b =? 0x0d) || (u8 b =? 0x1b)
  || (u8 b =? 0x40) || (u8 b =? 0x80).

(** First part of [kamSend]: copy [msg], append two zero bytes, compute
    the checksum over the result and store it in their place. *)
Definition append_crc (msg : list byte) : list byte :=
  let newmsg := msg ++ [x00; x00] in
  let c := crc_1021 newmsg in
  msg ++ [crc_hi c; crc_lo c].

(** The escape loop of [kamSend] over [newmsg]. *)
Fixpoint escape (newmsg : list byte) : list byte :=
  match newmsg with
  | [] => []
  | b :: rest =>
      if reserved b then x1b :: xor_ff b :: escape rest
      else b :: escape rest
  end.

(** [txmsg] as [kamSend] fills it: prefix [0x80], escaped message,
    [0x0d]. *)
Definition txframe (newmsg : list byte) : list byte :=
  x80 :: escape newmsg ++ [x0d].

(** [kamSend(msg, msgsize)] with [msgsize] the length of [msg]: the bytes
    written to the serial line, or [None] when filling [txmsg] stores
    past its twenty bytes. *)
Definition kamSend (msg : list byte) : option (list byte) :=
  let txmsg := txframe (append_crc msg) in
  if (length txmsg <=? TXCAP)%nat then Some txmsg else None.

(** The initialiser of [sendmsg] in [kamReadReg] for register number
    [reg]. *)
Definition sendmsg (reg : Z) : list byte :=
  [x3f; x10; x01; byte_of_Z (Z.shiftr reg 8); byte_of_Z (Z.land reg 0xff)].

(** The message [kamReadReg(kreg)] passes on to the escape loop: the
    request for [kregnums[kreg]] with its checksum. *)
Definition request (kreg : nat) : option (list byte) :=
  reg <- nth_error kregnums kreg ;;
  Some (append_crc (sendmsg reg)).

(** The bytes [kamReadReg(kreg)] writes to the serial line. *)
Definition request_frame (kreg : nat) : option (list byte) :=
  reg <- nth_error kregnums kreg ;;
  kamSend (sendmsg reg).

End Send.
Import Send.

(** ** Receiving: [kamReceive] *)

Module Receive.

(** What the environment answers during one pass of the receive loop:
    [now] is the value [millis()] returns in the timeout test, [incoming]
    is [Some b] when [kamSer.available()] holds and [kamSer.read()]
    gives [b]. *)
Record poll : Type := Poll { now : Z; incoming : option byte }.

(** How the receive loop ends. *)
Inductive rx_outcome : Type :=
| RxTimedOut                      (* [return 0] of the timeout test *)
| RxEol (rxdata : list byte)      (* loop left with [r == 0x0d] *)
| RxOverrun (rxdata : list byte) (r : byte)
                                  (* store of [r] at [rxdata[rxindex]],
                                     [rxindex] past the array *)
| RxRunning (rxdata : list byte) (r : byte).
                                  (* still looping when the trace ends *)

(** [millis() - starttime > KAMTIMEOUT], in [unsigned long]. *)
Definition timed_out (starttime t : Z) : bool :=
  KAMTIMEOUT <? ulong_of (t - starttime).

(** The loop [while (r != 0x0d)]; [rxdata] holds the [rxindex] bytes
    stored so far. *)
Fixpoint rx_loop (starttime : Z) (r : byte) (rxdata : list byte)
    (trace : list poll) : rx_outcome :=
  if u8 r =? 0x0d then RxEol rxdata
  else
    match trace with
    | [] => RxRunning rxdata r
    | p :: trace' =>
        if timed_out starttime (now p) then RxTimedOut
        else
          match incoming p with
          | None => rx_loop starttime r rxdata trace'
          | Some b =>
              if u8 b =? 0x40 then rx_loop starttime b rxdata trace'
              else if (length rxdata <? RXCAP)%nat
                   then rx_loop starttime b (rxdata ++ [b]) trace'
                   else RxOverrun rxdata b
          end
    end.

(** The loop that removes the escape markers: it runs over
    [rxdata[0 .. rxindex - 2]], so the last byte stored (the [0x0d]) is
    not copied, but it is the operand of an escape marker that stands
    just before it.  The "Missing escape" diagnostic is only printed. *)
Fixpoint unescape (rxdata : list byte) : list byte :=
  match rxdata with
  | [] => []
  | b :: rest =>
      match rest with
      | [] => []
      | c :: rest' =>
          if u8 b =? 0x1b then xor_ff c :: unescape rest'
          else b :: unescape rest
      end
  end.

(** How [kamReceive] ends. *)
Inductive recv_outcome : Type :=
| RecvTimeout                     (* [return 0], "Timed out ..." *)
| RecvCrcError                    (* [return 0], "CRC error" *)
| RecvOk (recvmsg : list byte)    (* [return j], [recvmsg[0 .. j-1]] *)
| RecvOverrun                     (* an access outside [rxdata] or
                                     [recvmsg] *)
| RecvRunning.                    (* still looping when the trace ends *)

(** Second half of [kamReceive], on the [rxindex] bytes of [rxdata]:
    remove the escape markers into [recvmsg], then check the checksum.
    With [rxindex == 0] the bound [rxindex - 1] of the loop wraps around
    and the loop reads [rxdata] where nothing was stored. *)
Definition frame_decode (rxdata : list byte) : recv_outcome :=
  match rxdata with
  | [] => RecvOverrun
  | _ :: _ =>
      let recvmsg := unescape rxdata in
      if (RECVCAP <? length recvmsg)%nat then RecvOverrun
      else if crc_1021 recvmsg =? 0 then RecvOk recvmsg
      else RecvCrcError
  end.

(** [kamReceive(recvmsg)]: [starttime] is the first value of [millis()],
    [r0] the content of the uninitialised [r] when the loop is entered, and
    [trace] what the environment answers after [kamSer.flush()]. *)
Definition kamReceive (starttime : Z) (r0 : byte) (trace : list poll)
    : recv_outcome :=
  match rx_loop starttime r0 [] trace with
  | RxTimedOut => RecvTimeout
  | RxOverrun _ _ => RecvOverrun
  | RxRunning _ _ => RecvRunning
  | RxEol rxdata => frame_decode rxdata
  end.

(** The [unsigned short] that [kamReceive] returns. *)
Definition rxnum (o : recv_outcome) : option Z :=
  match o with
  | RecvTimeout | RecvCrcError => Some 0
  | RecvOk recvmsg => Some (Z.of_nat (length recvmsg))
  | RecvOverrun | RecvRunning => None
  end.

End Receive.
Import Receive.

(** ** Decoding: [kamDecode] and [kamReadReg] *)

Module Decode.

(** Which [return] of [kamDecode] is taken: [return false], or
    [return (float)(x * ifl)]. *)
Inductive decode_outcome : Type :=
| DecodeFalse
| DecodeValue (x : Z) (ifl : Q).

(** The value returned. *)
Definition float_of (d : decode_outcome) : Q :=
  match d with
  | DecodeFalse => 0%Q
  | DecodeValue x ifl => (inject_Z x * ifl)%Q
  end.

(** One pass of the mantissa loop: [x <<= 8; x |= msg[i + 7]] on the
    [long] [x]. *)
Definition mantissa_step (msg : list byte) (acc : option Z) (i : nat)
    : option Z :=
  x <- acc ;;
  b <- nth_error msg (i + 7) ;;
  Some (Z.lor (long_of (Z.shiftl x 8)) (u8 b)).

(** The loop [for (i = 0; i < n; i++)] with [n] the value of [msg[5]]. *)
Definition mantissa (msg : list byte) (n : nat) : option Z :=
  fold_left (mantissa_step msg) (seq 0 n) (Some 0).

(** The [int i] passed to [pow]. *)
Definition exponent (e : byte) : Z :=
  let i := Z.land (u8 e) 0x3f in
  if Z.land (u8 e) 0x40 =? 0 then i else - i.

(** [ifl]: [pow(10, i)], negated when bit [0x80] of [e] is set. *)
Definition factor (e : byte) : Q :=
  let ifl := Qpower (inject_Z 10) (exponent e) in
  if Z.land (u8 e) 0x80 =? 0 then ifl else Qopp ifl.

(** [kamDecode(kreg, msg)]; [None] when a byte outside [msg] or an entry
    outside [kregnums] is read. *)
Definition kamDecode (kreg : nat) (msg : list byte)
    : option decode_outcome :=
  b0 <- nth_error msg 0 ;;
  if negb (u8 b0 =? 0x3f) then Some DecodeFalse else
  b1 <- nth_error msg 1 ;;
  if negb (u8 b1 =? 0x10) then Some DecodeFalse else
  b2 <- nth_error msg 2 ;;
  reg <- nth_error kregnums kreg ;;
  if negb (u8 b2 =? Z.shiftr reg 8) then Some DecodeFalse else
  b3 <- nth_error msg 3 ;;
  if negb (u8 b3 =? Z.land reg 0xff) then Some DecodeFalse else
  n <- nth_error msg 5 ;;
  x <- mantissa msg (Z.to_nat (u8 n)) ;;
  e <- nth_error msg 6 ;;
  Some (DecodeValue x (factor e)).

(** How [kamReadReg] ends. *)
Inductive read_outcome : Type :=
| ReadValue (rval : Q)            (* [return rval] *)
| ReadNoReturn                    (* [rxnum == 0]: the end of the function
                                     is reached without a [return] *)
| ReadUndefined                   (* an access outside an array *)
| ReadRunning.

(** [kamReadReg(kreg)]: send the request (the bytes written are
    [request_frame kreg]), listen, and decode what was received when
    [rxnum != 0]. *)
Definition kamReadReg (kreg : nat) (starttime : Z) (r0 : byte)
    (trace : list poll) : read_outcome :=
  match request_frame kreg with
  | None => ReadUndefined
  | Some _ =>
      match kamReceive starttime r0 trace with
      | RecvTimeout | RecvCrcError => ReadNoReturn
      | RecvOverrun => ReadUndefined
      | RecvRunning => ReadRunning
      | RecvOk recvmsg =>
          if Z.of_nat (length recvmsg) =? 0 then ReadNoReturn
          else
            match kamDecode kreg recvmsg with
            | Some d => ReadValue (float_of d)
            | None => ReadUndefined
            end
      end
  end.

End Decode.
Import Decode.

(** ** Numbers that byte sequences denote *)

Module Numbers.

(** The unsigned big-endian integer of a byte sequence. *)
Definition be_value (bs : list byte) : Z :=
  fold_left (fun acc b => acc * 256 + u8 b) bs 0.

End Numbers.
Import Numbers.

(** ** The checksum as a shift register over bits

    Auxiliary definitions for the proofs about [crc_1021]. *)

Module Bits.

(** The values the register [creg] takes between two passes. *)
Definition reg16 (creg : Z) : Prop := 0 <= creg < 2 ^ 16.

(** The update of the 16-bit register by one incoming bit [p]: the form
    [crc_bit] takes on register values below [2 ^ 16]. *)
Definition crc_shift (creg : Z) (p : bool) : Z :=
  Z.lxor (Z.lxor (Z.land (Z.shiftl creg 1) 0xffff) (Z.b2z p))
         (if Z.testbit creg 15 then 0x1021 else 0).

(** The bits of a byte in the order the masks [0x80 .. 0x01] select
    them. *)
Definition bits_of_byte (b : byte) : list bool :=
  map (Z.testbit (u8 b)) [7; 6; 5; 4; 3; 2; 1; 0].

Definition bits_of (msg : list byte) : list bool :=
  flat_map bits_of_byte msg.

Definition crc_bits (creg : Z) (bits : list bool) : Z :=
  fold_left crc_shift bits creg.

(** The number a bit sequence denotes, most significant bit first,
    continuing from [acc]. *)
Definition bits_value (acc : Z) (bits : list bool) : Z :=
  fold_left (fun a p => 2 * a + Z.b2z p) bits acc.

Definition zero_bits (bits : list bool) : list bool :=
  map (fun _ => false) bits.

End Bits.
Import Bits.

(** ** Counting what a source delivers *)

Module Trace.

(** A pass in which a byte is stored into [rxdata]. *)
Definition stores (p : poll) : bool :=
  match incoming p with
  | Some b => negb (u8 b =? 0x40)
  | None => false
  end.

(** The number of bytes a trace makes the receive loop store. *)
Definition stored (trace : list poll) : nat := length (filter stores trace).

End Trace.
Import Trace.

(** ** The behaviour the specification describes

    Definitions that follow the words of the specification where the code
    is compared with them. *)

Module Described.

(** "the four-byte header [[0x3F, 0x10, high-byte, low-byte]]" followed by
    the checksum "over the full six bytes". *)
Definition header4 (reg : Z) : list byte :=
  [x3f; x10; byte_of_Z (Z.shiftr reg 8); byte_of_Z (Z.land reg 0xff)].

Definition buildRequest_plain (reg : Z) : list byte :=
  let c := crc_1021 (header4 reg ++ [x00; x00]) in
  header4 reg ++ [crc_hi c; crc_lo c].

(** "Byte 4 is the number of mantissa bytes that follow, starting at
    byte 6". *)
Definition mantissa_at_6 (msg : list byte) : Z :=
  be_value (firstn (Z.to_nat (u8 (nth 4 msg x00))) (skipn 6 msg)).

(** "Byte 5 is the exponent-and-sign byte". *)
Definition exponent_byte_at_5 (msg : list byte) : byte := nth 5 msg x00.

(** "the unescaped bytes minus the two trailing checksum bytes". *)
Definition strip_crc (plain : list byte) : list byte :=
  firstn (length plain - 2) plain.

End Described.
Import Described.

(** ** Sample inputs *)

Module Samples.

(** A reply to the request for register [0x0001]: unit byte [0x02], four
    mantissa bytes, exponent byte [0xc2], mantissa 100, and the checksum
    [0x9a, 0x6a]. *)
Definition reply_body : list byte :=
  [x3f; x10; x00; x01; x02; x04; xc2; x00; x00; x00; x64].

Definition reply_msg : list byte := reply_body ++ [x9a; x6a].

(** The same reply as the receive loop stores it, and a run of the loop
    in which the meter sends [0x40], the reply and [0x0d], one byte per
    pass, well within the timeout. *)
Definition reply_rxdata : list byte := reply_msg ++ [x0d].

Definition reply_trace : list poll :=
  map (fun b => Poll 0 (Some b)) (x40 :: reply_rxdata).

(** A source that delivers 51 zero bytes, one every 9 ms (1200 baud),
    and never the end marker. *)
Definition flood_trace : list poll :=
  map (fun i => Poll (9 * Z.of_nat i) (Some x00)) (seq 0 51).

(** Replies for register [0x0001] with the mantissa bytes
    [80 00 00 00], [00 00 00 00 64] and [01 00 00 00 01]. *)
Definition msg_top_bit : list byte :=
  [x3f; x10; x00; x01; x02; x04; x00; x80; x00; x00; x00].

Definition msg_five_small : list byte :=
  [x3f; x10; x00; x01; x02; x05; x00; x00; x00; x00; x00; x64].

Definition msg_five_large : list byte :=
  [x3f; x10; x00; x01; x02; x05; x00; x01; x00; x00; x00; x01].

End Samples.
Import Samples.

(** ** The returned value in binary32

    [kamDecode] computes [(float)(x * ifl)] with [float ifl = pow(10, i)].
    The library function [pow] is not part of the sketch: it is a parameter
    [pow10], from the exponent to the [double] that [pow(10, i)] yields. *)

Module F32.

(** Conversion of a [long] to [float]. *)
Definition of_long (x : Z) : spec_float := binary_normalize 24 128 x 0 false.

(** Conversion of a [double] to [float]. *)
Definition of_double (d : spec_float) : spec_float :=
  match d with
  | S754_finite s m e =>
      binary_normalize 24 128 (if s then Z.neg m else Z.pos m) e s
  | _ => d
  end.

(** The value returned for the mantissa [x] and the exponent-and-sign byte
    [e]. *)
Definition value (pow10 : Z -> spec_float) (x : Z) (e : byte) : spec_float :=
  let ifl := of_double (pow10 (exponent e)) in
  let ifl := if Z.land (u8 e) 0x80 =? 0 then ifl else SFopp ifl in
  SFmul 24 128 (of_long x) ifl.

(** The [double] nearest to 1/100, and the [float] -1.0. *)
Definition double_hundredth : spec_float :=
  S754_finite false 5764607523034235 (-59).

Definition minus_one : spec_float := S754_finite true 8388608 (-23).

End F32.

(** ** What a run of the receive loop sees *)

Module Wire.

(** The bytes the source delivers during a run, in order. *)
Definition delivered (trace : list poll) : list byte :=
  flat_map (fun p => match incoming p with Some b => [b] | None => [] end)
           trace.

(** No pass of the run finds the timeout expired. *)
Definition in_time (starttime : Z) (trace : list poll) : Prop :=
  Forall (fun p => timed_out starttime (now p) = false) trace.

(** The bytes the loop stores: all but the start marker [0x40]. *)
Definition kept (b : byte) : bool := negb (u8 b =? 0x40).

(** A reply as [kamDecode] reads it for register number [reg]: header,
    a unit byte, the count [n], the exponent-and-sign byte [e] and the
    mantissa bytes. *)
Definition reply_of (reg : Z) (unit n e : byte) (mant : list byte)
    : list byte :=
  [x3f; x10; byte_of_Z (Z.shiftr reg 8); byte_of_Z (Z.land reg 0xff);
   unit; n; e] ++ mant.

End Wire.
Import Wire.

(** ** The polling round: [readKamstrup] *)

Module Poll.










End Poll.
Import Poll.

(** ** WiFi and MQTT: [setup_wifi], [setup_mqtt], [publish], [loop] *)

Module Net.

Import Strings.String.

(** [char topic[100]] and [char wtopic[100]]. *)
Definition TOPICCAP : nat := 100.

(** [strcpy] and [strcat] into an array of [cap] characters; a string
    stands for the characters before the terminating zero.  [None] when
    the characters and the zero do not fit. *)
Definition strcpy (cap : nat) (src : String.string) : option String.string :=
  if (String.length src <? cap)%nat then Some src else None.

Definition strcat (cap : nat) (dst src : String.string)
    : option String.string :=
  if (String.length dst + String.length src <? cap)%nat
  then Some (String.append dst src) else None.

(** The string literals ["/"] and ["/status"]. *)
Definition slash : String.string := "/"%string.
Definition slash_status : String.string := "/status"%string.

(** [mqtt_prefix] as configured in the sketch. *)
Definition mqtt_prefix : String.string := "/openhab/kamstrupEl"%string.

(** [kregstrings]. *)
Definition kregstrings : list String.string :=
  ["EIN"; "EINHR"; "P"; "Pmax"; "U1"; "U2"; "U3"; "I1"; "I2"; "I3";
   "P1"; "P2"; "P3"]%string.

(** [publish(subtopic, msg)] with the prefix [prefix]: the topic and the
    message handed to [client.publish]. *)
Definition publish (prefix subtopic msg : String.string)
    : option (String.string * String.string) :=
  t <- strcpy TOPICCAP prefix ;;
  t <- strcat TOPICCAP t slash ;;
  t <- strcat TOPICCAP t subtopic ;;
  Some (t, msg).

(** The last-will topic [setup_mqtt] builds: two [strcpy] into
    [wtopic]. *)
Definition will_topic (prefix : String.string) : option String.string :=
  _ <- strcpy TOPICCAP prefix ;;
  strcpy TOPICCAP slash_status.

(** The topic on which [setup_mqtt] publishes "ONLINE": [strcpy], then
    [strcat]. *)
Definition online_topic (prefix : String.string) : option String.string :=
  t <- strcpy TOPICCAP prefix ;;
  strcat TOPICCAP t slash_status.

(** How [setup_mqtt] ends; [att] is the number of failed calls of
    [client.connect], each followed by two waits of 3000 ms. *)
Inductive mqtt_outcome : Type :=
| MqttTrue (att : nat) (wtopic topic : String.string)  (* [return true] *)
| MqttFalse (att : nat)                                (* [return false] *)
| MqttOverrun.                            (* a store outside [wtopic] or
                                             [topic] *)

(** The loop [while (!client.connected() && (att < 10))]: [left] is
    [10 - att]; [connected k] is what the call of [client.connected()]
    in the loop test answers when [att] is [k], [connect k] what
    [client.connect] answers in that pass. *)
Fixpoint mqtt_loop (left att : nat) (prefix : String.string)
    (connected connect : nat -> bool) : mqtt_outcome :=
  if connected att then MqttFalse att
  else
    match left with
    | O => MqttFalse att
    | S left' =>
        match will_topic prefix with
        | None => MqttOverrun
        | Some wtopic =>
            if connect att then
              match online_topic prefix with
              | None => MqttOverrun
              | Some topic => MqttTrue att wtopic topic
              end
            else mqtt_loop left' (S att) prefix connected connect
        end
    end.

Definition setup_mqtt (prefix : String.string)
    (connected connect : nat -> bool) : mqtt_outcome :=
  mqtt_loop 10 0 prefix connected connect.

(** How [setup_wifi] ends: in [reboot()], which does not return, or with
    its result, the new value of [connAtt] and the time waited in
    [delay]. *)
Inductive wifi_outcome : Type :=
| WifiReboot
| WifiReturn (ok : bool) (connAtt : Z) (waited : Z).

(** The loop [while ((WiFi.status() != WL_CONNECTED) && (att < 30))]:
    [left] is [30 - att]; [status k] tells whether the [k]-th call of
    [WiFi.status()] (from 0) answers [WL_CONNECTED].  The result is the
    final [att]. *)
Fixpoint wifi_wait (left att : nat) (status : nat -> bool) : nat :=
  if status att then att
  else
    match left with
    | O => att
    | S left' => wifi_wait left' (S att) status
    end.

(** [setup_wifi()] entered with the global [connAtt] (a [byte]). *)
Definition setup_wifi (connAtt : Z) (status : nat -> bool) : wifi_outcome :=
  if 10 <? connAtt then WifiReboot
  else
    let att := wifi_wait 30 0 status in
    let waited := 10 + 1000 * Z.of_nat att in
    if status (S att) then WifiReturn true connAtt waited
    else WifiReturn false ((connAtt + 1) mod 256) waited.

(** Successive calls of [setup_wifi] from the value [connAtt]: the value
    of [connAtt] after them, or [None] when one of them rebooted. *)
Fixpoint wifi_calls (connAtt : Z) (calls : list (nat -> bool)) : option Z :=
  match calls with
  | [] => Some connAtt
  | status :: calls' =>
      match setup_wifi connAtt status with
      | WifiReboot => None
      | WifiReturn _ connAtt' _ => wifi_calls connAtt' calls'
      end
  end.

(** Whether a call of [setup_wifi] that returns returns [false]. *)
Definition wifi_fails (status : nat -> bool) : bool :=
  negb (status (S (wifi_wait 30 0 status))).

(** [pollFreq], and the test [millis() - lastMessage > pollFreq] of
    [loop], in [unsigned long]. *)
Definition pollFreq : Z := 60000.

Definition poll_due (lastMessage t : Z) : bool :=
  pollFreq <? ulong_of (t - lastMessage).

End Net.
Import Net.

(** ** Further sample inputs *)

Module Samples2.

(** The sample reply with its last mantissa byte changed from [0x64] to
    [0x65], checksum left as it was, and a run that delivers it. *)
Definition corrupt_msg : list byte :=
  [x3f; x10; x00; x01; x02; x04; xc2; x00; x00; x00; x65; x9a; x6a].

Definition corrupt_trace : list poll :=
  map (fun b => Poll 0 (Some b)) (x40 :: corrupt_msg ++ [x0d]).




(** Answers of [WiFi.status()], [client.connected()] and
    [client.connect]: never, from the third call on, always. *)
Definition never (k : nat) : bool := false.
Definition from_third (k : nat) : bool := (2 <=? k)%nat.
Definition always (k : nat) : bool := true.

End Samples2.
Import Samples2.

(** ** The two loops with the arrays they store into *)

Module Stages.

(** Second part of [kamSend], from the escape loop on: [newmsg] is escaped
    into [txmsg] between [0x80] and [0x0d] and written out; [None] when
    that stores past the twenty bytes of [txmsg]. *)
Definition escape_send (newmsg : list byte) : option (list byte) :=
  let txmsg := txframe newmsg in
  if (length txmsg <=? TXCAP)%nat then Some txmsg else None.

(** The loop of [kamReceive] that removes the escape markers, with its
    stores into [recvmsg]: [None] when it reads [rxdata] where nothing was
    stored ([rxindex == 0]) or stores past the forty bytes of
    [recvmsg]. *)
Definition unescape_recv (rxdata : list byte) : option (list byte) :=
  match rxdata with
  | [] => None
  | _ :: _ =>
      let recvmsg := unescape rxdata in
      if (RECVCAP <? length recvmsg)%nat then None else Some recvmsg
  end.

End Stages.
Import Stages.

(** ** The reply decoder in binary32

    [kamDecode] and [kamReadReg] once more, with the [float] they return
    computed as the code computes it: the [long] mantissa converted to
    [float], [pow(10, i)] converted from [double] to [float], and their
    product rounded to [float].  [pow] belongs to the C library, not to
    the sketch: [pow10 i] stands for the [double] that [pow(10, i)]
    yields. *)

Module Float32.

(** The [float] that [return false] yields. *)
Definition zero : spec_float := S754_zero false.

(** [kamDecode(kreg, msg)]; [None] when a byte outside [msg] or an entry
    outside [kregnums] is read. *)
Definition kamDecode (pow10 : Z -> spec_float) (kreg : nat)
    (msg : list byte) : option spec_float :=
  b0 <- nth_error msg 0 ;;
  if negb (u8 b0 =? 0x3f) then Some zero else
  b1 <- nth_error msg 1 ;;
  if negb (u8 b1 =? 0x10) then Some zero else
  b2 <- nth_error msg 2 ;;
  reg <- nth_error kregnums kreg ;;
  if negb (u8 b2 =? Z.shiftr reg 8) then Some zero else
  b3 <- nth_error msg 3 ;;
  if negb (u8 b3 =? Z.land reg 0xff) then Some zero else
  n <- nth_error msg 5 ;;
  x <- mantissa msg (Z.to_nat (u8 n)) ;;
  e <- nth_error msg 6 ;;
  Some (F32.value pow10 x e).

(** How [kamReadReg] ends. *)
Inductive read_outcome : Type :=
| ReadValue (rval : spec_float)   (* [return rval] *)
| ReadNoReturn                    (* [rxnum == 0]: the end of the function
                                     is reached without a [return] *)
| ReadUndefined                   (* an access outside an array *)
| ReadRunning.

(** [kamReadReg(kreg)]. *)
Definition kamReadReg (pow10 : Z -> spec_float) (kreg : nat)
    (starttime : Z) (r0 : byte) (trace : list poll) : read_outcome :=
  match request_frame kreg with
  | None => ReadUndefined
  | Some _ =>
      match kamReceive starttime r0 trace with
      | RecvTimeout | RecvCrcError => ReadNoReturn
      | RecvOverrun => ReadUndefined
      | RecvRunning => ReadRunning
      | RecvOk recvmsg =>
          if Z.of_nat (length recvmsg) =? 0 then ReadNoReturn
          else
            match kamDecode pow10 kreg recvmsg with
            | Some rval => ReadValue rval
            | None => ReadUndefined
            end
      end
  end.

(** The [float] nearest to 1/100, the [double] 1.0, and the two [double]s
    next to the one nearest to 1/100. *)
Definition hundredth : spec_float := S754_finite false 10737418 (-30).
Definition double_one : spec_float := S754_finite false 4503599627370496 (-52).
Definition double_hundredth_below : spec_float :=
  S754_finite false 5764607523034234 (-59).
Definition double_hundredth_above : spec_float :=
  S754_finite false 5764607523034236 (-59).

End Float32.

(** ** Samples for the binary32 decoder and the array bounds *)

Module Samples3.

(** A [pow] that answers for the exponents 0 and -2 only, as far as the
    samples need it. *)
Definition sample_pow10 (i : Z) : spec_float :=
  if i =? - 2 then F32.double_hundredth
  else if i =? 0 then Float32.double_one
  else S754_nan.

(** A run in which the meter answers the request for register [0x0001]
    with the reading zero: mantissa [00 00 00 00], exponent byte [0x00]. *)
Definition zero_reply : list byte :=
  reply_of 0x0001 x02 x04 x00 [x00; x00; x00; x00].

Definition zero_reply_trace : list poll :=
  map (fun b => Poll 0 (Some b))
      (x40 :: escape (append_crc zero_reply) ++ [x0d]).

(** Messages without reserved bytes, of 18, 19 and 41 bytes. *)
Definition plain18 : list byte := repeat x01 18.
Definition plain19 : list byte := repeat x01 19.
Definition plain41 : list byte := repeat x01 41.

End Samples3.
Import Samples3.
(** ** Facts on bytes and bits *)

Section MachFacts.

Lemma u8_range (b : byte) : 0 <= u8 b < 256.
Proof.
  unfold u8. pose proof (Byte.to_N_bounded b). lia.
Qed.

Lemma u8_byte_of_Z (z : Z) : u8 (byte_of_Z z) = z mod 256.
Proof.
  unfold u8, byte_of_Z.
  assert (Hr : 0 <= z mod 256 < 256) by (apply Z.mod_pos_bound; lia).
  destruct (Byte.of_N (Z.to_N (z mod 256))) as [b|] eqn:E.
  - apply Byte.to_of_N in E. rewrite E. lia.
  - apply Byte.of_N_None_iff in E. lia.
Qed.

Lemma byte_of_Z_u8 (b : byte) : byte_of_Z (u8 b) = b.
Proof.
  unfold byte_of_Z. rewrite Z.mod_small by apply u8_range.
  unfold u8. rewrite N2Z.id, Byte.of_to_N. reflexivity.
Qed.

Lemma u8_inj (a b : byte) : u8 a = u8 b -> a = b.
Proof.
  intros H. rewrite <- (byte_of_Z_u8 a), <- (byte_of_Z_u8 b), H. reflexivity.
Qed.

Lemma testbit_above (n a k : Z) :
  0 <= n -> 0 <= a < 2 ^ n -> n <= k -> Z.testbit a k = false.
Proof.
  intros Hn Ha Hk. rewrite <- (Z.mod_small a (2 ^ n)) by assumption.
  apply Z.mod_pow2_bits_high. lia.
Qed.

Lemma lt_pow2_of_bits (n a : Z) :
  0 <= n -> 0 <= a -> (forall k, n <= k -> Z.testbit a k = false) ->
  a < 2 ^ n.
Proof.
  intros Hn Ha Hbits.
  destruct (Z.eq_dec a 0) as [->|Hnz]; [apply Z.pow_pos_nonneg; lia|].
  apply Z.log2_lt_pow2; [lia|].
  destruct (Z.lt_ge_cases (Z.log2 a) n) as [|Hge]; [assumption|].
  specialize (Hbits _ Hge). rewrite Z.bit_log2 in Hbits by lia. discriminate.
Qed.

Lemma lxor_range (n a b : Z) :
  0 <= n -> 0 <= a < 2 ^ n -> 0 <= b < 2 ^ n -> 0 <= Z.lxor a b < 2 ^ n.
Proof.
  intros Hn Ha Hb.
  assert (H0 : 0 <= Z.lxor a b) by (apply Z.lxor_nonneg; lia).
  split; [assumption|].
  apply lt_pow2_of_bits; try assumption.
  intros k Hk. rewrite Z.lxor_spec.
  rewrite (testbit_above n a k), (testbit_above n b k) by assumption.
  reflexivity.
Qed.

Lemma land_pow2_eqb (x k : Z) :
  0 <= k -> (Z.land x (2 ^ k) =? 0) = negb (Z.testbit x k).
Proof.
  intros Hk.
  assert (E : Z.land x (2 ^ k) = if Z.testbit x k then 2 ^ k else 0).
  { apply Z.bits_inj'. intros n Hn.
    rewrite Z.land_spec, Z.pow2_bits_eqb by assumption.
    destruct (Z.eqb_spec k n) as [->|Hne].
    - destruct (Z.testbit x n) eqn:E.
      + rewrite Z.pow2_bits_true by assumption. reflexivity.
      + rewrite Z.bits_0. reflexivity.
    - rewrite andb_false_r. destruct (Z.testbit x k).
      + rewrite Z.pow2_bits_false by lia. reflexivity.
      + rewrite Z.bits_0. reflexivity. }
  rewrite E. destruct (Z.testbit x k); simpl.
  - apply Z.eqb_neq. pose proof (Z.pow_pos_nonneg 2 k). lia.
  - reflexivity.
Qed.

Lemma long_of_small (z : Z) : - 2 ^ 31 <= z < 2 ^ 31 -> long_of z = z.
Proof.
  intros H. unfold long_of. rewrite Z.mod_small; lia.
Qed.

Lemma long_of_range (z : Z) : - 2 ^ 31 <= long_of z < 2 ^ 31.
Proof.
  unfold long_of. pose proof (Z.mod_pos_bound (z + 2 ^ 31) (2 ^ 32)). lia.
Qed.

End MachFacts.

(** ** Facts on [crc_1021] *)

Section CrcFacts.

Lemma crc_shift_range (creg : Z) (p : bool) :
  reg16 creg -> reg16 (crc_shift creg p).
Proof.
  intros Hc. unfold crc_shift, reg16.
  apply lxor_range; [lia| |destruct (Z.testbit creg 15); lia].
  apply lxor_range; [lia| |destruct p; simpl; lia].
  change 0xffff with (Z.ones 16). rewrite Z.land_ones by lia.
  apply Z.mod_pos_bound. lia.
Qed.

Lemma testbit_1 (n : Z) : 0 <= n -> Z.testbit 1 n = (n =? 0).
Proof.
  intros Hn. change 1 with (2 ^ 0). rewrite Z.pow2_bits_eqb by lia.
  apply Z.eqb_sym.
Qed.

Lemma testbit_ffff (n : Z) : 0 <= n -> Z.testbit 0xffff n = (n <? 16).
Proof.
  intros Hn. change 0xffff with (Z.ones 16).
  apply Z.testbit_ones_nonneg; lia.
Qed.

(** On a 16-bit register [crc_bit] with mask [2 ^ k] is [crc_shift] with
    bit [k] of the byte. *)
Lemma crc_bit_shift (creg : Z) (b : byte) (k : Z) :
  reg16 creg -> 0 <= k ->
  crc_bit creg b (2 ^ k) = crc_shift creg (Z.testbit (u8 b) k).
Proof.
  intros Hc Hk. unfold crc_bit, crc_shift, reg16 in *.
  rewrite long_of_small by (rewrite Z.shiftl_mul_pow2; lia).
  rewrite land_pow2_eqb by assumption.
  set (s := Z.shiftl creg 1). set (p := Z.testbit (u8 b) k).
  assert (Hr : (if negb p then s else Z.lor s 1) = Z.lor s (Z.b2z p)).
  { destruct p; simpl; [reflexivity|]. now rewrite Z.lor_0_r. }
  rewrite Hr. clear Hr.
  change 0x10000 with (2 ^ 16). rewrite land_pow2_eqb by lia.
  assert (Hs : forall n, 0 <= n -> Z.testbit s n = Z.testbit creg (n - 1)).
  { intros n Hn. unfold s. apply Z.shiftl_spec. assumption. }
  assert (Hp : forall n, 0 <= n -> Z.testbit (Z.b2z p) n = p && (n =? 0)).
  { intros n Hn. destruct p; simpl; [apply testbit_1; assumption|].
    apply Z.bits_0. }
  assert (H16 : Z.testbit (Z.lor s (Z.b2z p)) 16 = Z.testbit creg 15).
  { rewrite Z.lor_spec, Hs, Hp by lia. simpl. now rewrite andb_false_r, orb_false_r. }
  rewrite H16.
  destruct (Z.testbit creg 15) eqn:E15; simpl negb; cbv iota.
  - f_equal. apply Z.bits_inj'. intros n Hn.
    rewrite Z.land_spec, Z.lor_spec, Z.lxor_spec, Z.land_spec, Hs, Hp,
      testbit_ffff by assumption.
    destruct (Z.eqb_spec n 0) as [->|Hn0].
    + rewrite (Z.testbit_neg_r creg (0 - 1)) by lia. simpl.
      destruct p; reflexivity.
    + rewrite andb_false_r, orb_false_r, xorb_false_r. reflexivity.
  - rewrite Z.lxor_0_r. apply Z.bits_inj'. intros n Hn.
    rewrite Z.lor_spec, Z.lxor_spec, Z.land_spec, Hs, Hp,
      testbit_ffff by assumption.
    destruct (Z.eqb_spec n 0) as [->|Hn0].
    + rewrite (Z.testbit_neg_r creg (0 - 1)) by lia. simpl.
      destruct p; reflexivity.
    + rewrite andb_false_r, orb_false_r, xorb_false_r.
      destruct (Z.ltb_spec n 16) as [Hlt|Hge];
        [now rewrite andb_true_r|].
      rewrite andb_false_r.
      destruct (Z.eq_dec n 16) as [->|Hn16]; [exact E15|].
      apply (testbit_above 16); lia.
Qed.

Lemma crc_bit_range (creg : Z) (b : byte) (k : Z) :
  reg16 creg -> 0 <= k -> reg16 (crc_bit creg b (2 ^ k)).
Proof.
  intros Hc Hk. rewrite crc_bit_shift by assumption.
  apply crc_shift_range, Hc.
Qed.

Lemma crc_byte_unfold (creg : Z) (b : byte) :
  crc_byte creg b =
  crc_bit (crc_bit (crc_bit (crc_bit (crc_bit (crc_bit (crc_bit (crc_bit
    creg b (2 ^ 7)) b (2 ^ 6)) b (2 ^ 5)) b (2 ^ 4)) b (2 ^ 3)) b (2 ^ 2))
    b (2 ^ 1)) b (2 ^ 0).
Proof. reflexivity. Qed.

Lemma crc_byte_bits (creg : Z) (b : byte) :
  reg16 creg -> crc_byte creg b = crc_bits creg (bits_of_byte b).
Proof.
  intros Hc. rewrite crc_byte_unfold.
  unfold crc_bits, bits_of_byte. cbn [map fold_left].
  repeat (rewrite crc_bit_shift;
          [|repeat (apply crc_bit_range; [|lia]); assumption|lia]).
  reflexivity.
Qed.

Lemma crc_bits_range (bits : list bool) (creg : Z) :
  reg16 creg -> reg16 (crc_bits creg bits).
Proof.
  revert creg. induction bits as [|p bits IH]; intros creg Hc; [exact Hc|].
  apply IH, crc_shift_range, Hc.
Qed.

Lemma crc_bits_app (creg : Z) (l1 l2 : list bool) :
  crc_bits creg (l1 ++ l2) = crc_bits (crc_bits creg l1) l2.
Proof. apply fold_left_app. Qed.

Lemma fold_crc_byte_bits (msg : list byte) (creg : Z) :
  reg16 creg -> fold_left crc_byte msg creg = crc_bits creg (bits_of msg).
Proof.
  revert creg. induction msg as [|b msg IH]; intros creg Hc; [reflexivity|].
  cbn [fold_left bits_of flat_map]. rewrite crc_bits_app.
  rewrite crc_byte_bits by assumption.
  apply IH, crc_bits_range, Hc.
Qed.

Lemma reg16_0 : reg16 0.
Proof. unfold reg16. lia. Qed.

Lemma crc_1021_bits (msg : list byte) :
  crc_1021 msg = crc_bits 0 (bits_of msg).
Proof. apply fold_crc_byte_bits, reg16_0. Qed.

Lemma crc_1021_range (msg : list byte) : 0 <= crc_1021 msg < 2 ^ 16.
Proof. rewrite crc_1021_bits. apply crc_bits_range, reg16_0. Qed.

(** The loop over [mask] ends by its own test: more fuel changes
    nothing. *)
Lemma crc_while_mask_0 (fuel : nat) (b : byte) (creg : Z) :
  crc_while fuel b 0 creg = creg.
Proof. destruct fuel; reflexivity. Qed.

Lemma crc_while_fuel (fuel : nat) (b : byte) (creg : Z) :
  (8 <= fuel)%nat -> crc_while fuel b 0x80 creg = crc_byte creg b.
Proof.
  intros Hf. do 8 (destruct fuel as [|fuel]; [lia|]).
  rewrite crc_byte_unfold.
  change (crc_while (S (S (S (S (S (S (S (S fuel)))))))) b 128 creg)
    with (crc_while fuel b 0
            (crc_bit (crc_bit (crc_bit (crc_bit (crc_bit (crc_bit (crc_bit
               (crc_bit creg b 128) b 64) b 32) b 16) b 8) b 4) b 2) b 1)).
  apply crc_while_mask_0.
Qed.

(** The register update is linear over GF(2). *)
Lemma crc_shift_lxor (s t : Z) (p q : bool) :
  crc_shift (Z.lxor s t) (xorb p q) =
  Z.lxor (crc_shift s p) (crc_shift t q).
Proof.
  unfold crc_shift. rewrite Z.lxor_spec.
  apply Z.bits_inj'. intros n Hn.
  assert (Hk : forall u v : bool,
             Z.testbit (if xorb u v then 0x1021 else 0) n =
             xorb (Z.testbit (if u then 0x1021 else 0) n)
                  (Z.testbit (if v then 0x1021 else 0) n)).
  { intros [|] [|]; simpl xorb; cbv iota;
      rewrite ?Z.bits_0, ?xorb_false_r, ?xorb_false_l, ?xorb_nilpotent;
      reflexivity. }
  assert (Hb : forall u v : bool,
             Z.testbit (Z.b2z (xorb u v)) n =
             xorb (Z.testbit (Z.b2z u) n) (Z.testbit (Z.b2z v) n)).
  { intros [|] [|]; simpl xorb; simpl Z.b2z;
      rewrite ?Z.bits_0, ?xorb_false_r, ?xorb_false_l, ?xorb_nilpotent;
      reflexivity. }
  rewrite !Z.lxor_spec, !Z.land_spec, Z.shiftl_lxor, Z.lxor_spec, Hk, Hb.
  rewrite !Z.shiftl_spec by assumption.
  destruct (Z.testbit s (n - 1)), (Z.testbit t (n - 1)),
    (Z.testbit 0xffff n), (Z.testbit (Z.b2z p) n), (Z.testbit (Z.b2z q) n),
    (Z.testbit (if Z.testbit s 15 then 0x1021 else 0) n),
    (Z.testbit (if Z.testbit t 15 then 0x1021 else 0) n); reflexivity.
Qed.

Lemma crc_bits_lxor (bits : list bool) (s t : Z) :
  crc_bits (Z.lxor s t) bits =
  Z.lxor (crc_bits s (zero_bits bits)) (crc_bits t bits).
Proof.
  revert s t. induction bits as [|p bits IH]; intros s t; [reflexivity|].
  cbn [crc_bits zero_bits map fold_left].
  change p with (xorb false p) at 1. rewrite crc_shift_lxor.
  apply IH.
Qed.

(** While the register stays below [2 ^ 16] nothing is reduced: the bits
    are just shifted in. *)
Lemma crc_shift_small (creg : Z) (p : bool) :
  0 <= creg < 2 ^ 15 -> crc_shift creg p = 2 * creg + Z.b2z p.
Proof.
  intros Hc. unfold crc_shift.
  rewrite (testbit_above 15 creg 15) by lia. rewrite Z.lxor_0_r.
  change 0xffff with (Z.ones 16). rewrite Z.land_ones by lia.
  rewrite Z.shiftl_mul_pow2 by lia.
  rewrite Z.mod_small by lia.
  rewrite <- Z.add_nocarry_lxor; [change (2 ^ 1) with 2; lia|].
  apply Z.bits_inj'. intros n Hn. rewrite Z.land_spec, Z.bits_0.
  destruct (Z.eq_dec n 0) as [->|Hn0].
  - rewrite Z.mul_comm. change (2 ^ 1) with 2.
    rewrite Z.testbit_even_0. reflexivity.
  - destruct p; simpl Z.b2z.
    + rewrite testbit_1 by assumption.
      destruct (Z.eqb_spec n 0); [contradiction|apply andb_false_r].
    + rewrite Z.bits_0. apply andb_false_r.
Qed.

Lemma bits_value_nonneg (bits : list bool) (acc : Z) :
  0 <= acc -> 0 <= bits_value acc bits.
Proof.
  revert acc. induction bits as [|p bits IH]; intros acc Ha; [exact Ha|].
  apply IH. destruct p; cbn [Z.b2z]; lia.
Qed.

Lemma bits_value_shift (bits : list bool) (acc : Z) :
  bits_value acc bits =
  acc * 2 ^ Z.of_nat (length bits) + bits_value 0 bits.
Proof.
  revert acc. induction bits as [|p bits IH]; intros acc.
  - cbn. lia.
  - cbn [bits_value fold_left length]. fold (bits_value (2 * acc + Z.b2z p) bits).
    fold (bits_value (2 * 0 + Z.b2z p) bits).
    rewrite (IH (2 * acc + Z.b2z p)), (IH (2 * 0 + Z.b2z p)).
    rewrite Nat2Z.inj_succ, Z.pow_succ_r by lia. ring.
Qed.

Lemma crc_bits_small (bits : list bool) (acc : Z) :
  0 <= acc -> bits_value acc bits < 2 ^ 16 ->
  crc_bits acc bits = bits_value acc bits.
Proof.
  revert acc. induction bits as [|p bits IH]; intros acc Ha Hv;
    [reflexivity|].
  cbn [crc_bits bits_value fold_left] in *.
  fold (bits_value (2 * acc + Z.b2z p) bits) in *.
  fold (crc_bits (crc_shift acc p) bits).
  assert (Hp : 0 <= Z.b2z p <= 1) by (destruct p; simpl; lia).
  assert (Hacc : acc < 2 ^ 15).
  { rewrite bits_value_shift in Hv.
    pose proof (bits_value_nonneg bits 0 (Z.le_refl 0)).
    assert (1 <= 2 ^ Z.of_nat (length bits))
      by (apply Z.pow_le_mono_r with (b := 0) (c := Z.of_nat (length bits)); lia).
    nia. }
  rewrite crc_shift_small by lia.
  apply IH; [lia|assumption].
Qed.

Lemma bits_value_byte (b : byte) (acc : Z) :
  bits_value acc (bits_of_byte b) = 256 * acc + u8 b.
Proof.
  rewrite bits_value_shift.
  replace (bits_value 0 (bits_of_byte b)) with (u8 b)
    by (destruct b; vm_compute; reflexivity).
  cbn [bits_of_byte map length]. change (2 ^ Z.of_nat 8) with 256. ring.
Qed.

(** The checksum bytes spell the checksum. *)
Lemma crc_bytes_value (c : Z) :
  reg16 c -> bits_value 0 (bits_of [crc_hi c; crc_lo c]) = c.
Proof.
  intros Hc. unfold reg16 in Hc. unfold bits_of. cbn [flat_map].
  rewrite app_nil_r. unfold bits_value. rewrite fold_left_app.
  fold (bits_value 0 (bits_of_byte (crc_hi c))).
  rewrite bits_value_byte.
  fold (bits_value (256 * 0 + u8 (crc_hi c)) (bits_of_byte (crc_lo c))).
  rewrite bits_value_byte.
  unfold crc_hi, crc_lo. rewrite !u8_byte_of_Z.
  rewrite Z.shiftr_div_pow2 by lia.
  change 0xff with (Z.ones 8). rewrite Z.land_ones by lia.
  change (2 ^ 8) with 256. rewrite Z.mod_mod by lia.
  rewrite (Z.mod_small (c / 256)) by (split; [apply Z.div_pos; lia|apply Z.div_lt_upper_bound; lia]).
  pose proof (Z.div_mod c 256). lia.
Qed.

End CrcFacts.

(** ** The checksum of a message that carries its checksum *)

Section CrcResidue.

Lemma bits_of_app (l1 l2 : list byte) :
  bits_of (l1 ++ l2) = bits_of l1 ++ bits_of l2.
Proof. apply flat_map_app. Qed.

Lemma crc_1021_app (msg tail : list byte) :
  crc_1021 (msg ++ tail) = crc_bits (crc_1021 msg) (bits_of tail).
Proof.
  rewrite !crc_1021_bits, bits_of_app. apply crc_bits_app.
Qed.

Lemma crc_bits_checksum (s : Z) (c : Z) :
  reg16 c -> c = crc_bits s (bits_of [x00; x00]) ->
  crc_bits s (bits_of [crc_hi c; crc_lo c]) = 0.
Proof.
  intros Hc Ec.
  rewrite <- (Z.lxor_0_r s) at 1. rewrite crc_bits_lxor.
  change (zero_bits (bits_of [crc_hi c; crc_lo c]))
    with (bits_of [x00; x00]).
  rewrite <- Ec.
  rewrite crc_bits_small; rewrite ?crc_bytes_value by assumption;
    [apply Z.lxor_nilpotent|lia|apply Hc].
Qed.

End CrcResidue.

(** C4. For every byte sequence [msg], with [c] the value [crc_1021] gives
    for [msg] followed by two zero bytes, the message [kamSend] builds is
    [msg] followed by the high and the low byte of [c], and [crc_1021] over
    that message is exactly [0x0000]. *)
Theorem crc_1021_append_crc_zero (msg : list byte) :
  let c := crc_1021 (msg ++ [x00; x00]) in
  append_crc msg = msg ++ [crc_hi c; crc_lo c] /\
  crc_1021 (msg ++ [crc_hi c; crc_lo c]) = 0.
Proof.
  intros c. split; [reflexivity|].
  rewrite crc_1021_app. apply crc_bits_checksum.
  - apply crc_1021_range.
  - unfold c. apply crc_1021_app.
Qed.

(** ** Facts on the escape and unescape loops *)

Section FrameFacts.

Lemma xor_ff_involutive (b : byte) : xor_ff (xor_ff b) = b.
Proof. destruct b; reflexivity. Qed.

Lemma reserved_1b (b : byte) : reserved b = false -> (u8 b =? 0x1b) = false.
Proof.
  unfold reserved. intros H.
  repeat (apply orb_false_elim in H; destruct H as [H ?]).
  assumption.
Qed.

Lemma escape_length (msg : list byte) :
  (length (escape msg) <= 2 * length msg)%nat.
Proof.
  induction msg as [|b msg IH]; [apply Nat.le_refl|].
  cbn [escape]. destruct (reserved b); cbn [length]; lia.
Qed.

(** Without reserved bytes nothing is escaped. *)
Lemma escape_plain (msg : list byte) :
  Forall (fun b => reserved b = false) msg -> escape msg = msg.
Proof.
  induction 1 as [|b msg Hb _ IH]; [reflexivity|].
  cbn [escape]. rewrite Hb, IH. reflexivity.
Qed.

(** The unescape loop undoes the escape loop on every message, whatever
    byte [t] was stored last. *)
Lemma unescape_after_escape (msg : list byte) (t : byte) :
  unescape (escape msg ++ [t]) = msg.
Proof.
  induction msg as [|b msg IH]; [reflexivity|].
  cbn [escape]. destruct (reserved b) eqn:Hb.
  - cbn [app unescape]. change (u8 x1b =? 27) with true. cbv iota.
    rewrite xor_ff_involutive. f_equal. exact IH.
  - cbn [app unescape].
    destruct (escape msg ++ [t]) as [|c rest] eqn:E.
    + apply app_eq_nil in E. destruct E as [_ E]. discriminate.
    + rewrite (reserved_1b b Hb). f_equal. exact IH.
Qed.

End FrameFacts.

Section StageFacts.

Lemma kamSend_stages (msg : list byte) :
  kamSend msg = escape_send (append_crc msg).
Proof. reflexivity. Qed.

Lemma frame_decode_stages (rxdata : list byte) :
  frame_decode rxdata
  = match unescape_recv rxdata with
    | None => RecvOverrun
    | Some recvmsg =>
        if crc_1021 recvmsg =? 0 then RecvOk recvmsg else RecvCrcError
    end.
Proof.
  unfold frame_decode, unescape_recv. destruct rxdata as [|b l];
    [reflexivity|].
  destruct (RECVCAP <? length (unescape (b :: l)))%nat; reflexivity.
Qed.

Lemma unescape_recv_escape (plain : list byte) :
  (length plain <= RECVCAP)%nat ->
  unescape_recv (escape plain ++ [x0d]) = Some plain.
Proof.
  intros Hlen. unfold unescape_recv.
  destruct (escape plain ++ [x0d]) as [|b l] eqn:E.
  - apply app_eq_nil in E. destruct E as [_ E]. discriminate.
  - rewrite <- E, unescape_after_escape.
    apply Nat.ltb_ge in Hlen. rewrite Hlen. reflexivity.
Qed.

End StageFacts.

(** C5, as the code has it. For every byte sequence [msg] of at most 18
    bytes that contains none of the reserved values [0x06], [0x0d],
    [0x1b], [0x40], [0x80], the escape loop of [kamSend] writes [msg]
    unchanged between [0x80] and [0x0d] without leaving [txmsg], and the
    unescape loop of [kamReceive], run over the escaped bytes with the end
    marker stored after them, leaves [msg] in [recvmsg]. *)
Theorem escape_unescape_fits (msg : list byte) :
  Forall (fun b => reserved b = false) msg ->
  (length msg <= 18)%nat ->
  escape msg = msg /\
  escape_send msg = Some (x80 :: escape msg ++ [x0d]) /\
  unescape_recv (escape msg ++ [x0d]) = Some msg.
Proof.
  intros Hplain Hlen.
  pose proof (escape_plain msg Hplain) as He.
  split; [exact He|]. split.
  - unfold escape_send, txframe. rewrite He. cbn [length].
    rewrite length_app. cbn [length].
    assert (H : (S (length msg + 1) <=? TXCAP)%nat = true)
      by (apply Nat.leb_le; unfold TXCAP; lia).
    rewrite H. reflexivity.
  - apply unescape_recv_escape. unfold RECVCAP. lia.
Qed.

Lemma escape_unescape_fits_witness :
  Forall (fun b => reserved b = false) plain18 /\
  escape_send plain18 = Some (x80 :: plain18 ++ [x0d]) /\
  unescape_recv (plain18 ++ [x0d]) = Some plain18.
Proof.
  assert (H1 : Forall (fun b => reserved b = false) plain18)
    by (repeat constructor).
  assert (H2 : (length plain18 <= 18)%nat)
    by (vm_compute; repeat constructor).
  destruct (escape_unescape_fits plain18 H1 H2) as [_ [T1 T2]].
  split; [exact H1|]. split; [exact T1|exact T2].
Defined.

(** C5, as worded for every byte sequence, fails: a message of 19 bytes
    without reserved values makes the escape loop store past the twenty
    bytes of [txmsg], and one of 41 bytes makes the unescape loop store
    past the forty bytes of [recvmsg]; neither gives the message back. *)
Lemma escape_unescape_overrun :
  Forall (fun b => reserved b = false) plain19 /\
  escape_send plain19 = None /\
  kamSend (repeat x01 17) = None /\
  Forall (fun b => reserved b = false) plain41 /\
  unescape_recv (escape plain41 ++ [x0d]) = None /\
  unescape_recv (escape plain41 ++ [x0d]) <> Some plain41.
Proof.
  split; [repeat constructor|]. split; [reflexivity|].
  split; [vm_compute; reflexivity|].
  split; [repeat constructor|]. split; [reflexivity|].
  vm_compute. discriminate.
Qed.

(** ** The request of [kamReadReg] *)

Section RequestFacts.

Lemma kregnums_word (kreg : nat) (reg : Z) :
  nth_error kregnums kreg = Some reg -> 0 <= reg < 2 ^ 16.
Proof.
  intros H. apply nth_error_In in H.
  assert (F : Forall (fun r => 0 <= r < 2 ^ 16) kregnums)
    by (repeat constructor; lia).
  rewrite Forall_forall in F. exact (F _ H).
Qed.

(** The two address bytes of a 16-bit register number spell it, high byte
    first. *)
Lemma address_bytes (reg : Z) :
  0 <= reg < 2 ^ 16 ->
  u8 (byte_of_Z (Z.shiftr reg 8)) = reg / 256 /\
  u8 (byte_of_Z (Z.land reg 0xff)) = reg mod 256.
Proof.
  intros Hr. rewrite !u8_byte_of_Z.
  rewrite Z.shiftr_div_pow2 by lia.
  change 0xff with (Z.ones 8). rewrite Z.land_ones by lia.
  change (2 ^ 8) with 256. rewrite Z.mod_mod by lia.
  split; [|reflexivity].
  apply Z.mod_small.
  split; [apply Z.div_pos; lia|apply Z.div_lt_upper_bound; lia].
Qed.

Lemma kamSend_fits (msg : list byte) :
  (length msg <= 7)%nat ->
  kamSend msg = Some (txframe (append_crc msg)).
Proof.
  intros Hl. unfold kamSend.
  assert (H : (length (txframe (append_crc msg)) <= TXCAP)%nat).
  { unfold txframe, append_crc. cbn [length].
    rewrite length_app. cbn [length].
    pose proof (escape_length (msg ++ [crc_hi (crc_1021 (msg ++ [x00; x00]));
                                       crc_lo (crc_1021 (msg ++ [x00; x00]))])) as He.
    rewrite length_app in He. cbn [length] in He.
    unfold TXCAP. lia. }
  apply Nat.leb_le in H. rewrite H. reflexivity.
Qed.

Lemma request_frame_fits (kreg : nat) (reg : Z) :
  nth_error kregnums kreg = Some reg ->
  request_frame kreg = Some (txframe (append_crc (sendmsg reg))).
Proof.
  intros Hk. unfold request_frame. rewrite Hk.
  apply kamSend_fits. cbn [sendmsg length]. lia.
Qed.

Lemma kregnums_length : length kregnums = NUMREGS.
Proof. reflexivity. Qed.

End RequestFacts.

(** C1, as the code has it. For every entry [reg] of [kregnums] the message
    built for the request, before escaping, is the five bytes
    [0x3f, 0x10, 0x01, high byte of reg, low byte of reg] followed by the
    two checksum bytes (high byte first) of [crc_1021] over those five
    bytes and two zero bytes: seven bytes in all.  The frame sent is that
    message escaped, between [0x80] and [0x0d]. *)
Theorem request_seven_bytes (kreg : nat) (reg : Z) :
  nth_error kregnums kreg = Some reg ->
  let hi := byte_of_Z (Z.shiftr reg 8) in
  let lo := byte_of_Z (Z.land reg 0xff) in
  let c := crc_1021 [x3f; x10; x01; hi; lo; x00; x00] in
  let plain := [x3f; x10; x01; hi; lo; crc_hi c; crc_lo c] in
  u8 hi * 256 + u8 lo = reg /\
  request kreg = Some plain /\
  length plain = 7%nat /\
  request_frame kreg = Some (x80 :: escape plain ++ [x0d]).
Proof.
  intros Hk hi lo c plain.
  pose proof (kregnums_word _ _ Hk) as Hr.
  destruct (address_bytes reg Hr) as [Hhi Hlo].
  split; [|split; [|split]].
  - fold hi in Hhi. fold lo in Hlo. rewrite Hhi, Hlo.
    pose proof (Z.div_mod reg 256). lia.
  - unfold request. rewrite Hk. reflexivity.
  - reflexivity.
  - rewrite (request_frame_fits _ _ Hk). reflexivity.
Qed.

Lemma request_seven_bytes_witness :
  nth_error kregnums 0 = Some 0x0001 /\
  request 0 = Some [x3f; x10; x01; x00; x01; x55; xa1] /\
  request_frame 0 = Some [x80; x3f; x10; x01; x00; x01; x55; xa1; x0d].
Proof.
  assert (H : nth_error kregnums 0 = Some 0x0001) by reflexivity.
  split; [exact H|].
  pose proof (request_seven_bytes 0 0x0001 H) as T.
  cbv zeta in T. destruct T as [_ [T1 [_ T2]]].
  split; [exact T1|exact T2].
Defined.

(** C1, as the specification words it, fails: for register [0x0001] the
    message built has seven bytes, with [0x01] as its third, and is not the
    six-byte message made of the four-byte header and its checksum. *)
Lemma request_not_six_bytes :
  nth_error kregnums 0 = Some 0x0001 /\
  request 0 = Some [x3f; x10; x01; x00; x01; x55; xa1] /\
  buildRequest_plain 0x0001 = [x3f; x10; x00; x01; xab; x45] /\
  request 0 <> Some (buildRequest_plain 0x0001).
Proof.
  repeat split. vm_compute. discriminate.
Qed.

(** ** The frame decoding of [kamReceive] *)

Section FrameDecodeFacts.

Lemma unescape_nil_inv (rxdata : list byte) :
  unescape rxdata <> [] -> rxdata <> [].
Proof. intros H ->. apply H. reflexivity. Qed.

Lemma frame_decode_ok (rxdata : list byte) :
  rxdata <> [] ->
  (length (unescape rxdata) <= RECVCAP)%nat ->
  crc_1021 (unescape rxdata) = 0 ->
  frame_decode rxdata = RecvOk (unescape rxdata).
Proof.
  intros Hne Hlen Hcrc. unfold frame_decode.
  destruct rxdata as [|b rest]; [contradiction|].
  apply Nat.ltb_ge in Hlen. rewrite Hlen, Hcrc. reflexivity.
Qed.

(** A message passes the check only with the checksum bytes [kamSend]
    would have stored. *)
Lemma crc_zero_checksum (body : list byte) (h l : byte) :
  crc_1021 (body ++ [h; l]) = 0 ->
  let c := crc_1021 (body ++ [x00; x00]) in
  h = crc_hi c /\ l = crc_lo c.
Proof.
  intros H0 c. rewrite crc_1021_app in H0.
  rewrite <- (Z.lxor_0_r (crc_1021 body)) in H0 at 1.
  rewrite crc_bits_lxor in H0.
  change (zero_bits (bits_of [h; l])) with (bits_of [x00; x00]) in H0.
  rewrite <- crc_1021_app in H0. fold c in H0.
  assert (Hv : bits_value 0 (bits_of [h; l]) = 256 * u8 h + u8 l).
  { unfold bits_of. cbn [flat_map]. rewrite app_nil_r.
    unfold bits_value. rewrite fold_left_app.
    fold (bits_value 0 (bits_of_byte h)). rewrite bits_value_byte.
    fold (bits_value (256 * 0 + u8 h) (bits_of_byte l)).
    rewrite bits_value_byte. ring. }
  pose proof (u8_range h) as Hh. pose proof (u8_range l) as Hl.
  rewrite crc_bits_small in H0 by (rewrite ?Hv; lia).
  rewrite Hv in H0. apply Z.lxor_eq in H0.
  unfold crc_hi, crc_lo. rewrite H0.
  split; apply u8_inj; rewrite u8_byte_of_Z.
  - rewrite Z.shiftr_div_pow2 by lia. change (2 ^ 8) with 256.
    replace ((256 * u8 h + u8 l) / 256) with (u8 h)
      by (apply Z.div_unique with (r := u8 l); lia).
    symmetry. apply Z.mod_small. assumption.
  - change 0xff with (Z.ones 8). rewrite Z.land_ones by lia.
    change (2 ^ 8) with 256. rewrite Z.mod_mod by lia.
    apply Z.mod_unique with (q := u8 h); lia.
Qed.

End FrameDecodeFacts.

(** C3, as the code has it. For every frame the receive loop leaves in
    [rxdata] whose unescaped content fits [recvmsg] and passes the check
    ([crc_1021] gives zero), [kamReceive] returns the whole unescaped
    sequence: its last two bytes are the checksum bytes of what precedes
    them, and the returned count includes them. *)
Theorem kamReceive_keeps_crc (starttime : Z) (r0 : byte) (trace : list poll)
    (rxdata body : list byte) (h l : byte) :
  rx_loop starttime r0 [] trace = RxEol rxdata ->
  unescape rxdata = body ++ [h; l] ->
  (length (unescape rxdata) <= RECVCAP)%nat ->
  crc_1021 (unescape rxdata) = 0 ->
  kamReceive starttime r0 trace = RecvOk (body ++ [h; l]) /\
  rxnum (kamReceive starttime r0 trace) = Some (Z.of_nat (length body) + 2) /\
  h = crc_hi (crc_1021 (body ++ [x00; x00])) /\
  l = crc_lo (crc_1021 (body ++ [x00; x00])).
Proof.
  intros Hloop Hun Hlen Hcrc.
  assert (Hk : kamReceive starttime r0 trace = RecvOk (body ++ [h; l])).
  { unfold kamReceive. rewrite Hloop. rewrite <- Hun.
    apply frame_decode_ok; try assumption.
    apply unescape_nil_inv. rewrite Hun.
    intros E. apply app_eq_nil in E. destruct E as [_ E]. discriminate. }
  split; [exact Hk|]. split.
  - rewrite Hk. cbn [rxnum]. rewrite length_app. cbn [length]. f_equal. lia.
  - rewrite Hun in Hcrc. exact (crc_zero_checksum body h l Hcrc).
Qed.

Lemma kamReceive_keeps_crc_witness :
  kamReceive 0 x00 reply_trace = RecvOk (reply_body ++ [x9a; x6a]) /\
  rxnum (kamReceive 0 x00 reply_trace) = Some 13.
Proof.
  assert (H1 : rx_loop 0 x00 [] reply_trace = RxEol reply_rxdata)
    by reflexivity.
  assert (H2 : unescape reply_rxdata = reply_body ++ [x9a; x6a])
    by reflexivity.
  assert (H3 : (length (unescape reply_rxdata) <= RECVCAP)%nat)
    by (vm_compute; repeat constructor).
  assert (H4 : crc_1021 (unescape reply_rxdata) = 0)
    by (vm_compute; reflexivity).
  destruct (kamReceive_keeps_crc 0 x00 reply_trace reply_rxdata
              reply_body x9a x6a H1 H2 H3 H4) as [T1 [T2 _]].
  split; [exact T1|exact T2].
Defined.

(** C3, as the specification words it, fails: for the sample reply, which
    passes the check, [kamReceive] returns thirteen bytes, the two checksum
    bytes [0x9a, 0x6a] among them, not the eleven bytes that remain when
    they are removed. *)
Lemma kamReceive_not_stripped :
  crc_1021 (unescape reply_rxdata) = 0 /\
  kamReceive 0 x00 reply_trace = RecvOk (reply_body ++ [x9a; x6a]) /\
  strip_crc (unescape reply_rxdata) = reply_body /\
  kamReceive 0 x00 reply_trace <> RecvOk (strip_crc (unescape reply_rxdata)).
Proof.
  repeat split. vm_compute. discriminate.
Qed.

(** ** The receive loop and its timeout *)

Section RxLoopFacts.

Variable starttime : Z.

Lemma rx_loop_eol (r : byte) (rxdata : list byte) (trace : list poll) :
  u8 r = 0x0d -> rx_loop starttime r rxdata trace = RxEol rxdata.
Proof.
  intros E. destruct trace; cbn [rx_loop]; rewrite E; reflexivity.
Qed.

Lemma rx_loop_step (r : byte) (rxdata : list byte) (p : poll)
    (trace : list poll) :
  u8 r <> 0x0d ->
  rx_loop starttime r rxdata (p :: trace) =
  if timed_out starttime (now p) then RxTimedOut
  else
    match incoming p with
    | None => rx_loop starttime r rxdata trace
    | Some b =>
        if u8 b =? 0x40 then rx_loop starttime b rxdata trace
        else if (length rxdata <? RXCAP)%nat
             then rx_loop starttime b (rxdata ++ [b]) trace
             else RxOverrun rxdata b
    end.
Proof.
  intros Hr. cbn [rx_loop].
  destruct (Z.eqb_spec (u8 r) 0x0d); [contradiction|reflexivity].
Qed.

(** The timeout is taken only in a pass whose reading of [millis()] is
    more than [KAMTIMEOUT] after [starttime], and in the first such
    pass. *)
Lemma rx_loop_timed_out_inv (trace : list poll) (r : byte)
    (rxdata : list byte) :
  rx_loop starttime r rxdata trace = RxTimedOut ->
  exists pre p post,
    trace = pre ++ p :: post /\
    Forall (fun q => timed_out starttime (now q) = false) pre /\
    timed_out starttime (now p) = true.
Proof.
  revert r rxdata. induction trace as [|p trace IH]; intros r rxdata H.
  - cbn [rx_loop] in H. destruct (u8 r =? 0x0d); discriminate.
  - destruct (Z.eq_dec (u8 r) 0x0d) as [E|E];
      [rewrite rx_loop_eol in H by assumption; discriminate|].
    rewrite rx_loop_step in H by assumption.
    destruct (timed_out starttime (now p)) eqn:Ht.
    + exists [], p, trace. repeat split; [constructor|assumption].
    + assert (Hrec : exists r' rxdata',
                 rx_loop starttime r' rxdata' trace = RxTimedOut).
      { destruct (incoming p) as [b|]; [|eauto].
        destruct (u8 b =? 0x40); [eauto|].
        destruct (length rxdata <? RXCAP)%nat; [eauto|discriminate]. }
      destruct Hrec as [r' [rxdata' Hrec]].
      destruct (IH _ _ Hrec) as [pre [q [post [Et [Hpre Hq]]]]].
      exists (p :: pre), q, post. rewrite Et.
      repeat split; [constructor|]; assumption.
Qed.

(** Without wrap-around of [millis()] the test compares the elapsed
    time. *)
Lemma timed_out_elapsed (t : Z) :
  0 <= starttime <= t -> t < 2 ^ 32 ->
  timed_out starttime t = true <-> KAMTIMEOUT < t - starttime.
Proof.
  intros H1 H2. unfold timed_out, ulong_of.
  rewrite Z.mod_small by lia. apply Z.ltb_lt.
Qed.

(** The bytes a trace delivers that are stored: all but [0x40]. *)
Lemma rx_loop_no_eol (trace : list poll) (r : byte) (rxdata : list byte) :
  u8 r <> 0x0d ->
  Forall (fun p => incoming p <> Some x0d) trace ->
  forall rxdata', rx_loop starttime r rxdata trace <> RxEol rxdata'.
Proof.
  revert r rxdata. induction trace as [|p trace IH];
    intros r rxdata Hr Hno rxdata'.
  - cbn [rx_loop]. destruct (Z.eqb_spec (u8 r) 0x0d);
      [contradiction|discriminate].
  - rewrite rx_loop_step by assumption.
    inversion Hno as [|? ? Hp Hno']; subst.
    destruct (timed_out starttime (now p)); [discriminate|].
    destruct (incoming p) as [b|] eqn:Eb; [|apply IH; assumption].
    assert (Hb : u8 b <> 0x0d).
    { intros E. apply Hp. f_equal. apply u8_inj. exact E. }
    destruct (u8 b =? 0x40); [apply IH; assumption|].
    destruct (length rxdata <? RXCAP)%nat;
      [apply IH; assumption|discriminate].
Qed.

(** A source that never delivers [0x0d], makes the loop store no more
    bytes than [rxdata] holds and is polled once after the deadline makes
    the loop return through the timeout. *)
Lemma rx_loop_times_out (trace : list poll) (r : byte)
    (rxdata : list byte) :
  u8 r <> 0x0d ->
  Forall (fun p => incoming p <> Some x0d) trace ->
  Exists (fun p => timed_out starttime (now p) = true) trace ->
  (length rxdata + stored trace <= RXCAP)%nat ->
  rx_loop starttime r rxdata trace = RxTimedOut.
Proof.
  revert r rxdata. induction trace as [|p trace IH];
    intros r rxdata Hr Hno Hex Hcap; [inversion Hex|].
  rewrite rx_loop_step by assumption.
  inversion Hno as [|? ? Hp Hno']; subst.
  destruct (timed_out starttime (now p)) eqn:Ht; [reflexivity|].
  assert (Hex' : Exists (fun p => timed_out starttime (now p) = true) trace).
  { inversion Hex as [? ? H|? ? H]; subst; [congruence|exact H]. }
  unfold stored in Hcap. cbn [filter] in Hcap. unfold stores in Hcap at 1.
  destruct (incoming p) as [b|] eqn:Eb; [|apply IH; assumption].
  assert (Hb : u8 b <> 0x0d).
  { intros E. apply Hp. f_equal. apply u8_inj. exact E. }
  destruct (u8 b =? 0x40); cbn [negb length] in Hcap;
    [apply IH; assumption|].
  assert (Hlt : (length rxdata <? RXCAP)%nat = true)
    by (apply Nat.ltb_lt; lia).
  rewrite Hlt. apply IH; try assumption.
  rewrite length_app. cbn [length]. fold (stored trace) in Hcap. lia.
Qed.

(** Once the loop has ended, what the source does later plays no role. *)
Lemma rx_loop_more (trace more : list poll) (r : byte)
    (rxdata : list byte) :
  (forall rxdata' r', rx_loop starttime r rxdata trace
                      <> RxRunning rxdata' r') ->
  rx_loop starttime r rxdata (trace ++ more)
  = rx_loop starttime r rxdata trace.
Proof.
  revert r rxdata. induction trace as [|p trace IH]; intros r rxdata H.
  - destruct (Z.eq_dec (u8 r) 0x0d) as [E|E].
    + rewrite !rx_loop_eol by assumption. reflexivity.
    + exfalso. apply (H rxdata r). cbn [rx_loop].
      destruct (Z.eqb_spec (u8 r) 0x0d); [contradiction|reflexivity].
  - destruct (Z.eq_dec (u8 r) 0x0d) as [E|E].
    + rewrite !rx_loop_eol by assumption. reflexivity.
    + cbn [app]. rewrite !rx_loop_step by assumption.
      rewrite rx_loop_step in H by assumption.
      destruct (timed_out starttime (now p)); [reflexivity|].
      destruct (incoming p) as [b|]; [|apply IH, H].
      destruct (u8 b =? 0x40); [apply IH, H|].
      destruct (length rxdata <? RXCAP)%nat; [apply IH, H|reflexivity].
Qed.

(** The store into [rxdata] is not guarded: with the array full, the next
    byte other than [0x40] is stored past its end. *)
Lemma rx_loop_store_unchecked (r b : byte) (rxdata : list byte) (p : poll)
    (trace : list poll) :
  u8 r <> 0x0d ->
  timed_out starttime (now p) = false ->
  incoming p = Some b -> u8 b <> 0x40 ->
  (RXCAP <= length rxdata)%nat ->
  rx_loop starttime r rxdata (p :: trace) = RxOverrun rxdata b.
Proof.
  intros Hr Ht Hb H40 Hcap. rewrite rx_loop_step by assumption.
  rewrite Ht, Hb.
  destruct (Z.eqb_spec (u8 b) 0x40); [contradiction|].
  apply Nat.ltb_ge in Hcap. rewrite Hcap. reflexivity.
Qed.

End RxLoopFacts.

(** C7 at an input where the code departs from it: the sample source
    delivers 51 bytes within 450 ms and never the end marker.  [kamReceive]
    does not end with the timeout: in the 51st pass it stores past the end
    of [rxdata], however the source goes on and however much time passes
    afterwards.  Nor is the timeout reached when the uninitialised [r]
    holds [0x0d] at the start: the loop is then not entered at all. *)
Theorem kamReceive_flood_no_timeout :
  Forall (fun p => incoming p <> Some x0d) flood_trace /\
  Forall (fun p => timed_out 0 (now p) = false) flood_trace /\
  kamReceive 0 x00 flood_trace = RecvOverrun /\
  (forall more, kamReceive 0 x00 (flood_trace ++ more) <> RecvTimeout) /\
  (forall trace, kamReceive 0 x0d trace = RecvOverrun).
Proof.
  assert (Hrx : rx_loop 0 x00 [] flood_trace = RxOverrun (repeat x00 50) x00)
    by (vm_compute; reflexivity).
  split; [|split; [|split; [|split]]].
  - unfold flood_trace. apply Forall_map, Forall_forall.
    intros i _. cbn [incoming]. discriminate.
  - apply Forall_forall. intros p Hp. unfold flood_trace in Hp.
    apply in_map_iff in Hp. destruct Hp as [i [<- Hi]].
    apply in_seq in Hi. cbn [now]. unfold timed_out, ulong_of, KAMTIMEOUT.
    rewrite Z.mod_small by lia. apply Z.ltb_ge. lia.
  - unfold kamReceive. rewrite Hrx. reflexivity.
  - intros more. unfold kamReceive.
    rewrite rx_loop_more by (intros ? ?; rewrite Hrx; discriminate).
    rewrite Hrx. discriminate.
  - intros trace. unfold kamReceive.
    rewrite rx_loop_eol by reflexivity. reflexivity.
Qed.

(** C9 at an input where the code departs from it: with the 50 bytes of
    [rxdata] in use, the 51st byte of the sample source is stored at
    [rxdata[50]]; no test precedes the store and the call has no outcome
    that reports the overflow.  The copy into the 40 bytes of [recvmsg] is
    not guarded either. *)
Theorem rx_loop_flood_overrun :
  rx_loop 0 x00 [] flood_trace = RxOverrun (repeat x00 50) x00 /\
  length (repeat x00 50) = RXCAP /\
  kamReceive 0 x00 flood_trace = RecvOverrun /\
  rxnum (kamReceive 0 x00 flood_trace) = None /\
  frame_decode (repeat x00 41 ++ [x0d]) = RecvOverrun.
Proof.
  repeat split; vm_compute; reflexivity.
Qed.

(** ** Facts on the mantissa loop of [kamDecode] *)

Section MantissaFacts.

Lemma long_of_unique (z w k : Z) :
  - 2 ^ 31 <= w < 2 ^ 31 -> w = z + 2 ^ 32 * k -> long_of z = w.
Proof.
  intros Hw E. unfold long_of.
  replace (z + 2 ^ 31) with ((w + 2 ^ 31) + (- k) * 2 ^ 32) by lia.
  rewrite Z_mod_plus_full, Z.mod_small; lia.
Qed.

Lemma long_of_congr (z : Z) : exists k, long_of z = z + 2 ^ 32 * k.
Proof.
  exists (- ((z + 2 ^ 31) / 2 ^ 32)). unfold long_of.
  pose proof (Z.div_mod (z + 2 ^ 31) (2 ^ 32)). lia.
Qed.

Lemma long_of_mod (z : Z) : long_of z mod 2 ^ 32 = z mod 2 ^ 32.
Proof.
  destruct (long_of_congr z) as [k ->].
  rewrite Z.mul_comm. apply Z_mod_plus_full.
Qed.

Lemma lor_low_byte (q b : Z) :
  0 <= b < 256 -> Z.lor (256 * q) b = 256 * q + b.
Proof.
  intros Hb.
  assert (H0 : Z.land (256 * q) b = 0).
  { apply Z.bits_inj'. intros n Hn. rewrite Z.land_spec, Z.bits_0.
    destruct (Z.lt_ge_cases n 8) as [Hlt|Hge].
    - rewrite Z.mul_comm. change 256 with (2 ^ 8).
      rewrite Z.mul_pow2_bits_low by assumption. reflexivity.
    - rewrite (testbit_above 8 b n) by (change (2 ^ 8) with 256; lia).
      apply andb_false_r. }
  rewrite <- Z.lxor_lor by assumption.
  symmetry. apply Z.add_nocarry_lxor. assumption.
Qed.

(** One pass of the loop on an accumulator that holds [long_of v]. *)
Lemma mantissa_pass (v : Z) (b : byte) :
  Z.lor (long_of (Z.shiftl (long_of v) 8)) (u8 b)
  = long_of (v * 256 + u8 b).
Proof.
  rewrite Z.shiftl_mul_pow2 by lia. change (2 ^ 8) with 256.
  destruct (long_of_congr v) as [k0 E0].
  destruct (long_of_congr (long_of v * 256)) as [k1 E1].
  pose proof (long_of_range (long_of v * 256)) as Hr.
  pose proof (u8_range b) as Hb.
  set (y := long_of (long_of v * 256)) in *.
  assert (Ey : y = 256 * (long_of v + 2 ^ 24 * k1)) by lia.
  rewrite Ey at 1. rewrite lor_low_byte by assumption.
  symmetry. apply long_of_unique with (k := 256 * k0 + k1); lia.
Qed.

Lemma be_value_snoc (bs : list byte) (b : byte) :
  be_value (bs ++ [b]) = be_value bs * 256 + u8 b.
Proof. unfold be_value. rewrite fold_left_app. reflexivity. Qed.

Lemma be_value_range (bs : list byte) :
  0 <= be_value bs < 256 ^ Z.of_nat (length bs).
Proof.
  induction bs as [|b bs IH] using rev_ind; [cbn; lia|].
  rewrite be_value_snoc, length_app, Nat2Z.inj_add. cbn [length].
  rewrite Z.pow_add_r by lia. change (256 ^ Z.of_nat 1) with 256.
  pose proof (u8_range b). nia.
Qed.

Lemma firstn_snoc (l : list byte) (k : nat) (b : byte) :
  nth_error l k = Some b -> firstn (S k) l = firstn k l ++ [b].
Proof.
  revert k. induction l as [|a l IH]; intros [|k] H; try discriminate.
  - cbn in H. injection H as ->. reflexivity.
  - cbn [firstn app]. f_equal. apply IH. exact H.
Qed.

(** The loop leaves in [x] the big-endian value of the [n] bytes from
    offset 7 on, converted to [long]. *)
Lemma mantissa_be (msg : list byte) (n : nat) :
  (7 + n <= length msg)%nat ->
  mantissa msg n = Some (long_of (be_value (firstn n (skipn 7 msg)))).
Proof.
  unfold mantissa. induction n as [|n IH]; intros Hlen; [reflexivity|].
  rewrite seq_S, fold_left_app, IH by lia. cbn [fold_left mantissa_step].
  destruct (nth_error msg (0 + n + 7)) as [b|] eqn:E.
  - rewrite mantissa_pass.
    rewrite (firstn_snoc (skipn 7 msg) n b), be_value_snoc; [reflexivity|].
    rewrite nth_error_skipn, <- E. f_equal. lia.
  - apply nth_error_None in E. lia.
Qed.

Lemma be_value_small (bs : list byte) :
  (length bs <= 3)%nat -> be_value bs < 2 ^ 31.
Proof.
  intros H. pose proof (be_value_range bs) as Hr.
  assert (256 ^ Z.of_nat (length bs) <= 256 ^ 3)
    by (apply Z.pow_le_mono_r; lia).
  lia.
Qed.

End MantissaFacts.

(** ** The reply decoder *)

(** C10, as the code has it. The accumulator [x] of the mantissa loop is a
    signed 32-bit [long]: for every reply that holds the bytes the loop
    reads, it ends as the big-endian value [v] of the [n] bytes from offset
    7 on, reduced modulo [2 ^ 32] into the range from [- 2 ^ 31] to
    [2 ^ 31 - 1].  It is [v] itself exactly when [v < 2 ^ 31], which holds
    for every mantissa of at most three bytes. *)
Theorem mantissa_long (msg : list byte) (n : nat) :
  (7 + n <= length msg)%nat ->
  let v := be_value (firstn n (skipn 7 msg)) in
  exists x,
    mantissa msg n = Some x /\
    - 2 ^ 31 <= x < 2 ^ 31 /\
    x mod 2 ^ 32 = v mod 2 ^ 32 /\
    (x = v <-> v < 2 ^ 31) /\
    ((n <= 3)%nat -> x = v).
Proof.
  intros Hlen v. exists (long_of v).
  pose proof (be_value_range (firstn n (skipn 7 msg))) as Hv. fold v in Hv.
  pose proof (long_of_range v) as Hr.
  split; [apply mantissa_be, Hlen|].
  split; [exact Hr|].
  split; [apply long_of_mod|].
  split.
  - split; [intros E; lia|intros Hs; apply long_of_small; lia].
  - intros Hn. apply long_of_small.
    assert (v < 2 ^ 31); [|lia].
    apply be_value_small. rewrite length_firstn. lia.
Qed.

Lemma mantissa_long_witness :
  (7 + 4 <= length reply_msg)%nat /\
  exists x,
    mantissa reply_msg 4 = Some x /\
    - 2 ^ 31 <= x < 2 ^ 31 /\
    x mod 2 ^ 32 = be_value [x00; x00; x00; x64] mod 2 ^ 32 /\
    (x = be_value [x00; x00; x00; x64]
     <-> be_value [x00; x00; x00; x64] < 2 ^ 31) /\
    ((4 <= 3)%nat -> x = be_value [x00; x00; x00; x64]).
Proof.
  assert (H : (7 + 4 <= length reply_msg)%nat)
    by (vm_compute; repeat constructor).
  split; [exact H|].
  exact (mantissa_long reply_msg 4 H).
Defined.

(** C10, as worded, fails in both directions: the four mantissa bytes
    [80 00 00 00] are not decoded exactly (the accumulator ends negative),
    while the five bytes [00 00 00 00 64] are decoded exactly; five bytes
    that do not fit, [01 00 00 00 01], lose their first byte. *)
Lemma mantissa_four_bytes_inexact :
  kamDecode 0 msg_top_bit = Some (DecodeValue (- 2147483648) (factor x00)) /\
  be_value (firstn 4 (skipn 7 msg_top_bit)) = 2147483648 /\
  mantissa msg_top_bit 4 <> Some (be_value (firstn 4 (skipn 7 msg_top_bit))) /\
  mantissa msg_five_small 5
    = Some (be_value (firstn 5 (skipn 7 msg_five_small))) /\
  mantissa msg_five_large 5 = Some 1.
Proof.
  repeat split. vm_compute. discriminate.
Qed.

(** C2, as the code has it. For every reply to the request for an entry
    [reg] of [kregnums], byte 4 is not looked at, byte 5 is the count [n] of
    mantissa bytes, byte 6 is the exponent-and-sign byte, and the mantissa
    is accumulated big-endian over the [n] bytes from offset 7 on, in a
    [long]: the value is the unsigned big-endian integer when that is below
    [2 ^ 31]. *)
Theorem kamDecode_layout (kreg : nat) (reg : Z) (b4 n e : byte)
    (tail : list byte) :
  nth_error kregnums kreg = Some reg ->
  (Z.to_nat (u8 n) <= length tail)%nat ->
  let v := be_value (firstn (Z.to_nat (u8 n)) tail) in
  kamDecode kreg
    ([x3f; x10; byte_of_Z (Z.shiftr reg 8); byte_of_Z (Z.land reg 0xff);
      b4; n; e] ++ tail)
  = Some (DecodeValue (long_of v) (factor e)) /\
  (v < 2 ^ 31 -> long_of v = v).
Proof.
  intros Hk Hn v.
  pose proof (kregnums_word _ _ Hk) as Hr.
  destruct (address_bytes reg Hr) as [Hhi Hlo].
  split.
  - unfold kamDecode. cbn [app nth_error].
    change (u8 x3f =? 63) with true. change (u8 x10 =? 16) with true.
    cbn [negb]. rewrite Hk, Hhi, Hlo.
    rewrite Z.shiftr_div_pow2 by lia. change (2 ^ 8) with 256.
    change 0xff with (Z.ones 8). rewrite Z.land_ones by lia.
    change (2 ^ 8) with 256. rewrite !Z.eqb_refl. cbn [negb].
    rewrite mantissa_be by (cbn [length]; lia).
    reflexivity.
  - intros Hv. apply long_of_small.
    pose proof (be_value_range (firstn (Z.to_nat (u8 n)) tail)). lia.
Qed.

Lemma kamDecode_layout_witness :
  kamDecode 0 reply_msg = Some (DecodeValue 100 (factor xc2)).
Proof.
  assert (H1 : nth_error kregnums 0 = Some 0x0001) by reflexivity.
  assert (H2 : (Z.to_nat (u8 x04) <= length [x00; x00; x00; x64; x9a; x6a])%nat)
    by (vm_compute; repeat constructor).
  exact (proj1 (kamDecode_layout 0 0x0001 x02 x04 xc2
                  [x00; x00; x00; x64; x9a; x6a] H1 H2)).
Defined.

(** C2, as the specification words it, fails: in the sample reply byte 4
    is [0x02] and byte 5 is [0x04]; two bytes from offset 6 on would give
    the mantissa [0xc200] with the exponent byte [0x04], where the code
    decodes the mantissa 100 with the exponent byte [0xc2]. *)
Lemma kamDecode_not_offset_6 :
  kamDecode 0 reply_msg = Some (DecodeValue 100 (factor xc2)) /\
  mantissa_at_6 reply_msg = 49664 /\
  exponent_byte_at_5 reply_msg = x04 /\
  kamDecode 0 reply_msg
    <> Some (DecodeValue (mantissa_at_6 reply_msg)
               (factor (exponent_byte_at_5 reply_msg))).
Proof.
  repeat split. vm_compute. discriminate.
Qed.

(** C6, as the specification words it, fails: the code has no error
    kind.  Asked for register [0x000d] and answered with the sample reply
    for [0x0001], [kamReadReg] returns the value of [return false], 0.0;
    asked for register [0x0001] and answered with the reading zero, it
    returns 0.0 as well: the mismatch is not told apart from a reading. *)
Lemma kamDecode_mismatch_not_distinct :
  kamDecode 1 reply_msg = Some DecodeFalse /\
  kamReadReg 1 0 x00 reply_trace = ReadValue 0%Q /\
  kamReceive 0 x00 zero_reply_trace = RecvOk (append_crc zero_reply) /\
  kamDecode 0 (append_crc zero_reply) = Some (DecodeValue 0 (factor x00)) /\
  kamReadReg 0 0 x00 zero_reply_trace = ReadValue 0%Q /\
  kamReadReg 1 0 x00 reply_trace = kamReadReg 0 0 x00 zero_reply_trace /\
  Float32.kamReadReg sample_pow10 1 0 x00 reply_trace
    = Float32.ReadValue Float32.zero /\
  Float32.kamReadReg sample_pow10 0 0 x00 zero_reply_trace
    = Float32.ReadValue Float32.zero.
Proof.
  repeat split; vm_compute; reflexivity.
Qed.

(** C6, as the code has it. For every requested entry [reg] of [kregnums]
    and every reply whose byte 0 is not [0x3f], or whose byte 1 is not
    [0x10], or whose bytes 2 and 3 are not [reg] high byte first,
    [kamDecode] takes its [return false]: it returns the [float] 0.0,
    whatever [pow] computes, and no error kind.  It does so for a reply
    that passed the check of [kamReceive] as well, and [kamReadReg] then
    returns that value, whereas after a checksum failure it does not call
    [kamDecode] and reaches its end without a [return]. *)
Theorem kamDecode_mismatch (kreg : nat) (reg : Z) (b0 b1 b2 b3 : byte)
    (rest : list byte) :
  nth_error kregnums kreg = Some reg ->
  u8 b0 <> 0x3f \/ u8 b1 <> 0x10 \/ u8 b2 * 256 + u8 b3 <> reg ->
  kamDecode kreg (b0 :: b1 :: b2 :: b3 :: rest) = Some DecodeFalse /\
  (forall pow10,
     Float32.kamDecode pow10 kreg (b0 :: b1 :: b2 :: b3 :: rest)
     = Some Float32.zero) /\
  forall starttime r0 trace,
    (kamReceive starttime r0 trace = RecvOk (b0 :: b1 :: b2 :: b3 :: rest) ->
     kamReadReg kreg starttime r0 trace = ReadValue 0%Q /\
     forall pow10,
       Float32.kamReadReg pow10 kreg starttime r0 trace
       = Float32.ReadValue Float32.zero) /\
    (kamReceive starttime r0 trace = RecvCrcError ->
     kamReadReg kreg starttime r0 trace = ReadNoReturn /\
     forall pow10,
       Float32.kamReadReg pow10 kreg starttime r0 trace
       = Float32.ReadNoReturn).
Proof.
  intros Hk Hmis.
  assert (Hchk : (u8 b0 =? 0x3f) = false \/ (u8 b1 =? 0x10) = false \/
                 (u8 b2 =? Z.shiftr reg 8) = false \/
                 (u8 b3 =? Z.land reg 0xff) = false).
  { destruct (Z.eqb_spec (u8 b0) 0x3f) as [E0|]; [|left; reflexivity].
    destruct (Z.eqb_spec (u8 b1) 0x10) as [E1|]; [|right; left; reflexivity].
    destruct (Z.eqb_spec (u8 b2) (Z.shiftr reg 8)) as [E2|];
      [|right; right; left; reflexivity].
    destruct (Z.eqb_spec (u8 b3) (Z.land reg 0xff)) as [E3|];
      [|right; right; right; reflexivity].
    exfalso.
    pose proof (kregnums_word _ _ Hk) as Hr.
    rewrite Z.shiftr_div_pow2 in E2 by lia. change (2 ^ 8) with 256 in E2.
    change 0xff with (Z.ones 8) in E3. rewrite Z.land_ones in E3 by lia.
    change (2 ^ 8) with 256 in E3.
    pose proof (Z.div_mod reg 256) as Hdm.
    destruct Hmis as [Hm|[Hm|Hm]]; [contradiction|contradiction|lia]. }
  assert (Hd : kamDecode kreg (b0 :: b1 :: b2 :: b3 :: rest) = Some DecodeFalse).
  { unfold kamDecode. cbn [nth_error]. rewrite Hk.
    destruct (u8 b0 =? 0x3f); [cbn [negb]|reflexivity].
    destruct (u8 b1 =? 0x10); [cbn [negb]|reflexivity].
    destruct (u8 b2 =? Z.shiftr reg 8); [cbn [negb]|reflexivity].
    destruct (u8 b3 =? Z.land reg 0xff); [cbn [negb]|reflexivity].
    destruct Hchk as [H|[H|[H|H]]]; discriminate H. }
  assert (Hf : forall pow10,
             Float32.kamDecode pow10 kreg (b0 :: b1 :: b2 :: b3 :: rest)
             = Some Float32.zero).
  { intros pow10. unfold Float32.kamDecode. cbn [nth_error]. rewrite Hk.
    destruct (u8 b0 =? 0x3f); [cbn [negb]|reflexivity].
    destruct (u8 b1 =? 0x10); [cbn [negb]|reflexivity].
    destruct (u8 b2 =? Z.shiftr reg 8); [cbn [negb]|reflexivity].
    destruct (u8 b3 =? Z.land reg 0xff); [cbn [negb]|reflexivity].
    destruct Hchk as [H|[H|[H|H]]]; discriminate H. }
  split; [exact Hd|]. split; [exact Hf|].
  intros starttime r0 trace.
  unfold kamReadReg, Float32.kamReadReg.
  rewrite (request_frame_fits _ _ Hk). split; intros ->.
  - cbn [length].
    destruct (Z.eqb_spec (Z.of_nat (S (S (S (S (length rest)))))) 0);
      [lia|].
    rewrite Hd. split; [reflexivity|]. intros pow10. rewrite Hf. reflexivity.
  - split; [reflexivity|]. intros pow10. reflexivity.
Qed.

Lemma kamDecode_mismatch_witness :
  nth_error kregnums 1 = Some 0x000d /\
  kamReceive 0 x00 reply_trace = RecvOk reply_msg /\
  kamDecode 1 reply_msg = Some DecodeFalse /\
  kamReadReg 1 0 x00 reply_trace = ReadValue 0%Q.
Proof.
  assert (H1 : nth_error kregnums 1 = Some 0x000d) by reflexivity.
  assert (H2 : u8 x3f <> 0x3f \/ u8 x10 <> 0x10
               \/ u8 x00 * 256 + u8 x01 <> 0x000d)
    by (right; right; vm_compute; discriminate).
  assert (H3 : kamReceive 0 x00 reply_trace = RecvOk reply_msg)
    by (vm_compute; reflexivity).
  destruct (kamDecode_mismatch 1 0x000d x3f x10 x00 x01
              [x02; x04; xc2; x00; x00; x00; x64; x9a; x6a] H1 H2)
    as [T1 [_ T2]].
  split; [exact H1|]. split; [exact H3|]. split; [exact T1|].
  exact (proj1 (proj1 (T2 0 x00 reply_trace) H3)).
Defined.

Section ExponentFacts.


End ExponentFacts.

(** ** The sample reply in binary32 *)

Section Binary32Sample.

Variable pow10 : Z -> spec_float.
Hypothesis pow10_hundredth : pow10 (- 2) = F32.double_hundredth.

(** With [pow(10, -2)] the [double] nearest to 1/100, the value returned
    for the exponent byte [0xc2] and the mantissa 100 is the [float]
    -1.0: the rounding changes nothing here. *)
Lemma value_sample_binary32 : F32.value pow10 100 xc2 = F32.minus_one.
Proof.
  unfold F32.value. change (exponent xc2) with (- 2).
  rewrite pow10_hundredth. vm_compute. reflexivity.
Qed.

End Binary32Sample.

(** ** Further properties of [crc_1021] *)

Section CrcDetection.

Lemma reg16_below_15 (u : Z) :
  reg16 u -> Z.testbit u 15 = false -> 0 <= u < 2 ^ 15.
Proof.
  intros Hu H15. unfold reg16 in Hu. split; [lia|].
  apply lt_pow2_of_bits; [lia|lia|].
  intros k Hk. destruct (Z.eq_dec k 15) as [->|Hne]; [exact H15|].
  apply (testbit_above 16); lia.
Qed.

(** Shifting in a zero bit sends only the zero register to zero. *)
Lemma crc_shift_zero_inv (u : Z) :
  reg16 u -> crc_shift u false = 0 -> u = 0.
Proof.
  intros Hu H0. destruct (Z.testbit u 15) eqn:E15.
  - exfalso. unfold crc_shift in H0. rewrite E15 in H0.
    assert (Hb : Z.testbit
                   (Z.lxor (Z.lxor (Z.land (Z.shiftl u 1) 65535) (Z.b2z false))
                           0x1021) 0 = true).
    { rewrite !Z.lxor_spec, Z.land_spec, Z.shiftl_spec by lia.
      rewrite (Z.testbit_neg_r u (0 - 1)) by lia. reflexivity. }
    rewrite H0 in Hb. rewrite Z.bits_0 in Hb. discriminate.
  - pose proof (reg16_below_15 u Hu E15) as Hs.
    rewrite crc_shift_small in H0 by assumption.
    cbn [Z.b2z] in H0. lia.
Qed.

Lemma crc_shift_inj (s t : Z) (p : bool) :
  reg16 s -> reg16 t -> crc_shift s p = crc_shift t p -> s = t.
Proof.
  intros Hs Ht E. apply Z.lxor_eq. apply crc_shift_zero_inv.
  - unfold reg16 in *. apply lxor_range; lia.
  - replace false with (xorb p p) by apply xorb_nilpotent.
    rewrite crc_shift_lxor, E. apply Z.lxor_nilpotent.
Qed.

Lemma crc_bits_inj (bits : list bool) (s t : Z) :
  reg16 s -> reg16 t -> crc_bits s bits = crc_bits t bits -> s = t.
Proof.
  revert s t. induction bits as [|p bits IH]; intros s t Hs Ht E;
    [exact E|].
  apply (crc_shift_inj s t p Hs Ht).
  apply IH; [apply crc_shift_range, Hs|apply crc_shift_range, Ht|exact E].
Qed.

(** The register after a byte is the register after a zero byte, with the
    byte added in. *)
Lemma crc_bits_byte (s : Z) (b : byte) :
  crc_bits s (bits_of_byte b)
  = Z.lxor (crc_bits s (bits_of_byte x00)) (u8 b).
Proof.
  rewrite <- (Z.lxor_0_r s) at 1. rewrite crc_bits_lxor.
  change (zero_bits (bits_of_byte b)) with (bits_of_byte x00).
  f_equal. pose proof (u8_range b) as Hb.
  rewrite crc_bits_small; rewrite ?bits_value_byte; lia.
Qed.

Lemma crc_1021_cons_app (pre : list byte) (b : byte) (post : list byte) :
  crc_1021 (pre ++ b :: post)
  = crc_bits (crc_bits (crc_1021 pre) (bits_of_byte b)) (bits_of post).
Proof.
  rewrite crc_1021_app. change (bits_of (b :: post))
    with (bits_of_byte b ++ bits_of post).
  apply crc_bits_app.
Qed.

Lemma crc_1021_zeros (n : nat) : crc_1021 (repeat x00 n) = 0.
Proof.
  induction n as [|n IH]; [reflexivity|].
  change (repeat x00 (S n)) with ([x00] ++ repeat x00 n).
  unfold crc_1021 in *. rewrite fold_left_app. exact IH.
Qed.

(** The message [kamSend] builds passes the check of [kamReceive]. *)
Lemma append_crc_passes (msg : list byte) : crc_1021 (append_crc msg) = 0.
Proof.
  unfold append_crc. rewrite crc_1021_app. apply crc_bits_checksum.
  - apply crc_1021_range.
  - apply crc_1021_app.
Qed.

Lemma crc_1021_byte_inj (pre post : list byte) (b b' : byte) :
  crc_1021 (pre ++ b :: post) = crc_1021 (pre ++ b' :: post) -> b = b'.
Proof.
  intros E. rewrite !crc_1021_cons_app in E.
  assert (Hs : reg16 (crc_1021 pre)) by apply crc_1021_range.
  apply crc_bits_inj in E; try (apply crc_bits_range; assumption).
  rewrite (crc_bits_byte _ b), (crc_bits_byte _ b') in E.
  apply u8_inj.
  apply (f_equal (Z.lxor (crc_bits (crc_1021 pre) (bits_of_byte x00)))) in E.
  rewrite <- !Z.lxor_assoc, Z.lxor_nilpotent, !Z.lxor_0_l in E.
  exact E.
Qed.

End CrcDetection.

(** X1. The value [crc_1021] returns fits 16 bits for every message,
    although the register is a [long]. *)
Theorem crc_1021_16_bits (inmsg : list byte) :
  0 <= crc_1021 inmsg <= 0xffff.
Proof.
  pose proof (crc_1021_range inmsg) as H.
  change (2 ^ 16) with 65536 in H. lia.
Qed.

(** X2. A message passes the check ([crc_1021] over it is zero) exactly
    when its last two bytes are the checksum bytes that [kamSend] stores
    for what precedes them. *)
Theorem crc_1021_zero_iff (body : list byte) (h l : byte) :
  crc_1021 (body ++ [h; l]) = 0 <->
  h = crc_hi (crc_1021 (body ++ [x00; x00])) /\
  l = crc_lo (crc_1021 (body ++ [x00; x00])).
Proof.
  split.
  - intros H0. exact (crc_zero_checksum body h l H0).
  - intros [-> ->]. exact (append_crc_passes body).
Qed.

(** X3. Two messages that differ in one byte only never have the same
    [crc_1021]: a message that passes the check fails it once a single
    byte is altered. *)
Theorem crc_1021_detects_byte (pre post : list byte) (b b' : byte) :
  b <> b' ->
  crc_1021 (pre ++ b :: post) <> crc_1021 (pre ++ b' :: post).
Proof.
  intros Hne E. apply Hne. exact (crc_1021_byte_inj pre post b b' E).
Qed.

Lemma crc_1021_detects_byte_witness :
  x64 <> x65 /\
  crc_1021 (reply_body ++ [x9a; x6a]) = 0 /\
  crc_1021 ([x3f; x10; x00; x01; x02; x04; xc2; x00; x00; x00]
            ++ x65 :: [x9a; x6a]) <> 0.
Proof.
  assert (H : x64 <> x65) by discriminate.
  split; [exact H|]. split; [vm_compute; reflexivity|].
  exact (crc_1021_detects_byte
           [x3f; x10; x00; x01; x02; x04; xc2; x00; x00; x00] [x9a; x6a]
           x65 x64 (fun E => H (eq_sym E))).
Defined.

(** X4. Zero bytes in front of a message do not change its [crc_1021]:
    the register starts at zero and stays there. *)
Theorem crc_1021_leading_zeros (n : nat) (inmsg : list byte) :
  crc_1021 (repeat x00 n ++ inmsg) = crc_1021 inmsg.
Proof.
  unfold crc_1021. rewrite fold_left_app.
  fold (crc_1021 (repeat x00 n)). rewrite crc_1021_zeros. reflexivity.
Qed.

(** ** Further properties of the frames sent and received *)

Section WireFacts.

Lemma xor_ff_reserved (b : byte) :
  reserved b = true -> reserved (xor_ff b) = false.
Proof. destruct b; intros H; try discriminate H; reflexivity. Qed.

Lemma reserved_values (b : byte) :
  reserved b = false ->
  u8 b <> 0x06 /\ u8 b <> 0x0d /\ u8 b <> 0x40 /\ u8 b <> 0x80.
Proof.
  unfold reserved. intros H.
  repeat (apply orb_false_elim in H; destruct H as [H ?]).
  repeat split; apply Z.eqb_neq; assumption.
Qed.

Lemma escape_clean (newmsg : list byte) :
  Forall (fun b => u8 b <> 0x06 /\ u8 b <> 0x0d /\ u8 b <> 0x40
                   /\ u8 b <> 0x80) (escape newmsg).
Proof.
  induction newmsg as [|b rest IH]; [constructor|].
  cbn [escape]. destruct (reserved b) eqn:Hb.
  - constructor; [repeat split; discriminate|].
    constructor; [apply reserved_values, xor_ff_reserved, Hb|exact IH].
  - constructor; [apply reserved_values, Hb|exact IH].
Qed.

Lemma escape_length_ge (msg : list byte) :
  (length msg <= length (escape msg))%nat.
Proof.
  induction msg as [|b msg IH]; [apply Nat.le_refl|].
  cbn [escape]. destruct (reserved b); cbn [length]; lia.
Qed.

Lemma append_crc_length (msg : list byte) :
  length (append_crc msg) = (length msg + 2)%nat.
Proof. unfold append_crc. rewrite length_app. reflexivity. Qed.

Lemma unescape_cons2 (b c : byte) (l : list byte) :
  unescape (b :: c :: l)
  = if u8 b =? 0x1b then xor_ff c :: unescape l else b :: unescape (c :: l).
Proof. reflexivity. Qed.

(** The second loop of [kamReceive] copies fewer bytes than were
    stored. *)
Lemma unescape_length (rxdata : list byte) :
  (length (unescape rxdata) <= pred (length rxdata))%nat.
Proof.
  assert (H : forall l b,
             (length (unescape l) <= pred (length l))%nat /\
             (length (unescape (b :: l)) <= length l)%nat).
  { induction l as [|c l IH]; intros b; [split; apply Nat.le_refl|].
    destruct (IH c) as [IH1 IH2]. split; [exact IH2|].
    rewrite unescape_cons2.
    destruct (u8 b =? 27); cbn [length] in *; lia. }
  destruct rxdata as [|b l]; [apply Nat.le_refl|].
  exact (proj2 (H l b)).
Qed.

Lemma delivered_cons (p : poll) (trace : list poll) :
  delivered (p :: trace)
  = match incoming p with Some b => b :: delivered trace
                        | None => delivered trace end.
Proof. unfold delivered. cbn [flat_map]. destruct (incoming p); reflexivity. Qed.

Lemma stored_cons (p : poll) (trace : list poll) :
  stored (p :: trace)
  = match incoming p with
    | Some b => if u8 b =? 0x40 then stored trace else S (stored trace)
    | None => stored trace
    end.
Proof.
  unfold stored. cbn [filter]. unfold stores at 1.
  destruct (incoming p) as [b|]; [|reflexivity].
  destruct (u8 b =? 0x40); reflexivity.
Qed.

Variable starttime : Z.

(** What the loop has stored when it ends on the end marker: the bytes
    delivered up to the first [0x0d], without the [0x40]s. *)
Lemma rx_loop_eol_inv (trace : list poll) (r : byte) (rxdata rxdata' : list byte) :
  u8 r <> 0x0d ->
  rx_loop starttime r rxdata trace = RxEol rxdata' ->
  exists wire rest,
    delivered trace = wire ++ x0d :: rest /\
    ~ In x0d wire /\
    rxdata' = rxdata ++ filter kept wire ++ [x0d] /\
    (length rxdata' <= RXCAP)%nat.
Proof.
  revert r rxdata. induction trace as [|p trace IH]; intros r rxdata Hr H.
  - cbn [rx_loop] in H. destruct (Z.eqb_spec (u8 r) 0x0d);
      [contradiction|discriminate].
  - rewrite rx_loop_step in H by assumption.
    destruct (timed_out starttime (now p)); [discriminate|].
    rewrite delivered_cons.
    destruct (incoming p) as [b|]; [|exact (IH _ _ Hr H)].
    destruct (Z.eq_dec (u8 b) 0x0d) as [Eb|Eb].
    + assert (b = x0d) by (apply u8_inj; exact Eb). subst b.
      change (u8 x0d =? 64) with false in H. cbv iota in H.
      destruct (length rxdata <? RXCAP)%nat eqn:Hcap; [|discriminate].
      rewrite rx_loop_eol in H by reflexivity. injection H as <-.
      exists [], (delivered trace). repeat split; [intros []|].
      rewrite length_app. cbn [length]. apply Nat.ltb_lt in Hcap. lia.
    + assert (Hin : forall wire, ~ In x0d wire -> ~ In x0d (b :: wire)).
      { intros wire Hw [E|E]; [|exact (Hw E)]. subst b. apply Eb. reflexivity. }
      destruct (u8 b =? 0x40) eqn:E40.
      * destruct (IH _ _ Eb H) as [wire [rest [Hd [Hno [Hrx Hlen]]]]].
        exists (b :: wire), rest. rewrite Hd.
        repeat split; [apply Hin, Hno| |exact Hlen].
        cbn [filter]. unfold kept at 1. rewrite E40. exact Hrx.
      * destruct (length rxdata <? RXCAP)%nat; [|discriminate].
        destruct (IH _ _ Eb H) as [wire [rest [Hd [Hno [Hrx Hlen]]]]].
        exists (b :: wire), rest. rewrite Hd.
        repeat split; [apply Hin, Hno| |exact Hlen].
        cbn [filter]. unfold kept at 1. rewrite E40. cbn [negb].
        rewrite Hrx, <- app_assoc. reflexivity.
Qed.

(** Conversely, a source that delivers [wire] and then [0x0d] in time
    makes the loop end with what it kept of [wire], when that fits. *)
Lemma rx_loop_delivers (trace : list poll) (r : byte) (rxdata wire : list byte) :
  u8 r <> 0x0d ->
  in_time starttime trace ->
  delivered trace = wire ++ [x0d] ->
  ~ In x0d wire ->
  (length rxdata + length (filter kept wire) < RXCAP)%nat ->
  rx_loop starttime r rxdata trace = RxEol (rxdata ++ filter kept wire ++ [x0d]).
Proof.
  revert r rxdata wire. induction trace as [|p trace IH];
    intros r rxdata wire Hr Ht Hd Hno Hcap.
  - destruct wire; discriminate.
  - rewrite rx_loop_step by assumption.
    inversion Ht as [|? ? Hp Ht']; subst. rewrite Hp.
    rewrite delivered_cons in Hd.
    destruct (incoming p) as [b|]; [|apply IH; assumption].
    destruct wire as [|w wire].
    + cbn [app] in Hd. injection Hd as -> Hd.
      change (u8 x0d =? 64) with false. cbv iota.
      cbn [filter length] in Hcap. rewrite Nat.add_0_r in Hcap.
      apply Nat.ltb_lt in Hcap. rewrite Hcap.
      apply rx_loop_eol. reflexivity.
    + cbn [app] in Hd. injection Hd as -> Hd.
      assert (Hw : u8 w <> 0x0d).
      { intros E. apply Hno. left. apply u8_inj. rewrite E. reflexivity. }
      assert (Hno' : ~ In x0d wire) by (intros E; apply Hno; right; exact E).
      cbn [filter] in *. unfold kept at 1. unfold kept at 1 in Hcap.
      destruct (u8 w =? 0x40); cbn [negb] in *.
      * apply IH; assumption.
      * cbn [length] in Hcap.
        assert (Hlt : (length rxdata <? RXCAP)%nat = true)
          by (apply Nat.ltb_lt; lia).
        rewrite Hlt.
        rewrite (IH w (rxdata ++ [w]) wire Hw Ht' Hd Hno')
          by (rewrite length_app; cbn [length]; lia).
        rewrite <- app_assoc. reflexivity.
Qed.

(** How many bytes the loop stores is bounded by what the source makes it
    store. *)
Lemma rx_loop_stored (trace : list poll) (r : byte) (rxdata : list byte) :
  match rx_loop starttime r rxdata trace with
  | RxEol rxdata' => (length rxdata' <= length rxdata + stored trace)%nat
  | RxOverrun _ _ => (RXCAP < length rxdata + stored trace)%nat
  | _ => True
  end.
Proof.
  revert r rxdata. induction trace as [|p trace IH]; intros r rxdata.
  - cbn [rx_loop]. destruct (u8 r =? 0x0d); [lia|exact I].
  - destruct (Z.eq_dec (u8 r) 0x0d) as [E|E].
    + rewrite rx_loop_eol by assumption. lia.
    + rewrite rx_loop_step by assumption.
      destruct (timed_out starttime (now p)); [exact I|].
      rewrite stored_cons.
      destruct (incoming p) as [b|]; [|apply IH].
      destruct (u8 b =? 0x40); [apply IH|].
      destruct (length rxdata <? RXCAP)%nat eqn:Hcap.
      * specialize (IH b (rxdata ++ [b])). rewrite length_app in IH.
        cbn [length] in IH.
        destruct (rx_loop starttime b (rxdata ++ [b]) trace); try exact I; lia.
      * apply Nat.ltb_ge in Hcap. lia.
Qed.

End WireFacts.

Section FrameComposition.

Lemma filter_kept_start (pre : list byte) :
  Forall (fun b => b = x40) pre -> filter kept pre = [].
Proof.
  induction 1 as [|b pre -> _ IH]; [reflexivity|]. cbn [filter]. exact IH.
Qed.

Lemma filter_kept_escape (newmsg : list byte) :
  filter kept (escape newmsg) = escape newmsg.
Proof.
  pose proof (escape_clean newmsg) as H.
  induction H as [|b l [_ [_ [H40 _]]] _ IH]; [reflexivity|].
  cbn [filter]. unfold kept at 1.
  destruct (Z.eqb_spec (u8 b) 0x40); [contradiction|].
  cbn [negb]. rewrite IH. reflexivity.
Qed.

Lemma escape_no_eol (pre newmsg : list byte) :
  Forall (fun b => b = x40) pre -> ~ In x0d (pre ++ escape newmsg).
Proof.
  intros Hpre Hin. apply in_app_or in Hin. destruct Hin as [Hin|Hin].
  - rewrite Forall_forall in Hpre. specialize (Hpre _ Hin). discriminate.
  - pose proof (escape_clean newmsg) as H. rewrite Forall_forall in H.
    destruct (H _ Hin) as [_ [H0d _]]. apply H0d. reflexivity.
Qed.

(** The second half of [kamReceive] on a frame as [kamSend] escapes it. *)
Lemma frame_decode_escape (plain : list byte) :
  (length plain <= RECVCAP)%nat ->
  frame_decode (escape plain ++ [x0d])
  = if crc_1021 plain =? 0 then RecvOk plain else RecvCrcError.
Proof.
  intros Hlen. unfold frame_decode.
  destruct (escape plain ++ [x0d]) as [|b l] eqn:E.
  - apply app_eq_nil in E. destruct E as [_ E]. discriminate.
  - rewrite <- E, unescape_after_escape.
    apply Nat.ltb_ge in Hlen. rewrite Hlen. reflexivity.
Qed.

Lemma kamReceive_escaped (starttime : Z) (r0 : byte) (trace : list poll)
    (pre plain : list byte) :
  u8 r0 <> 0x0d ->
  in_time starttime trace ->
  Forall (fun b => b = x40) pre ->
  delivered trace = pre ++ escape plain ++ [x0d] ->
  (length (escape plain) < RXCAP)%nat ->
  (length plain <= RECVCAP)%nat ->
  kamReceive starttime r0 trace
  = if crc_1021 plain =? 0 then RecvOk plain else RecvCrcError.
Proof.
  intros Hr Ht Hpre Hd Hrx Hrecv. unfold kamReceive.
  rewrite app_assoc in Hd.
  rewrite (rx_loop_delivers starttime trace r0 [] (pre ++ escape plain)
             Hr Ht Hd (escape_no_eol pre plain Hpre)).
  - rewrite filter_app, (filter_kept_start pre Hpre), filter_kept_escape.
    cbn [app]. apply frame_decode_escape, Hrecv.
  - rewrite filter_app, (filter_kept_start pre Hpre), filter_kept_escape.
    cbn [app length]. exact Hrx.
Qed.

(** [kamDecode] on a reply with the header of the register asked for. *)
Lemma kamDecode_reply_of (kreg : nat) (reg : Z) (unit n e : byte)
    (mant tail : list byte) :
  nth_error kregnums kreg = Some reg ->
  length mant = Z.to_nat (u8 n) ->
  kamDecode kreg (reply_of reg unit n e mant ++ tail)
  = Some (DecodeValue (long_of (be_value mant)) (factor e)).
Proof.
  intros Hk Hn.
  pose proof (kregnums_word _ _ Hk) as Hr.
  destruct (address_bytes reg Hr) as [Hhi Hlo].
  unfold kamDecode, reply_of. cbn [app nth_error].
  change (u8 x3f =? 63) with true. change (u8 x10 =? 16) with true.
  cbn [negb]. rewrite Hk, Hhi, Hlo.
  rewrite Z.shiftr_div_pow2 by lia. change (2 ^ 8) with 256.
  change 0xff with (Z.ones 8). rewrite Z.land_ones by lia.
  change (2 ^ 8) with 256. rewrite !Z.eqb_refl. cbn [negb].
  rewrite mantissa_be by (cbn [length]; rewrite length_app; lia).
  cbn [skipn]. rewrite <- Hn, firstn_app, Nat.sub_diag, firstn_all.
  cbn [firstn]. rewrite app_nil_r. reflexivity.
Qed.

End FrameComposition.

(** X5. The escape loop of [kamSend] never emits [0x06], [0x0d], [0x40] or
    [0x80]: in the frame sent, [0x80] occurs only as the first byte and
    [0x0d] only as the last. *)
Theorem escape_emits_no_marker (newmsg : list byte) :
  Forall (fun b => u8 b <> 0x06 /\ u8 b <> 0x0d /\ u8 b <> 0x40
                   /\ u8 b <> 0x80) (escape newmsg) /\
  txframe newmsg = x80 :: escape newmsg ++ [x0d].
Proof. split; [apply escape_clean|reflexivity]. Qed.

(** X6. [kamSend] stays within the twenty bytes of [txmsg] for every
    message of at most 7 bytes and stores past them for every message of
    more than 16 bytes; when it stays within, what it writes is [0x80], the
    escaped message with its checksum, and [0x0d]. *)
Theorem kamSend_bounds (msg : list byte) :
  match kamSend msg with
  | Some txmsg =>
      txmsg = x80 :: escape (append_crc msg) ++ [x0d] /\
      (length txmsg <= TXCAP)%nat /\ (length msg <= 16)%nat
  | None => (8 <= length msg)%nat
  end.
Proof.
  unfold kamSend.
  pose proof (escape_length (append_crc msg)) as Hle.
  pose proof (escape_length_ge (append_crc msg)) as Hge.
  rewrite append_crc_length in Hle, Hge.
  assert (Hl : length (txframe (append_crc msg))
               = S (length (escape (append_crc msg)) + 1)).
  { unfold txframe. cbn [length]. rewrite length_app. reflexivity. }
  destruct (length (txframe (append_crc msg)) <=? TXCAP)%nat eqn:E.
  - apply Nat.leb_le in E. unfold TXCAP in *.
    split; [reflexivity|]. split; lia.
  - apply Nat.leb_gt in E. unfold TXCAP in *. lia.
Qed.

(** X7. When the uninitialised [r] is not [0x0d] and the receive loop ends
    on the end marker, what it leaves in [rxdata] is the bytes delivered up
    to the first [0x0d], in order and without the [0x40]s, followed by
    that [0x0d]; it is at most 50 bytes long. *)
Theorem rx_loop_eol_shape (starttime : Z) (r0 : byte) (trace : list poll)
    (rxdata : list byte) :
  u8 r0 <> 0x0d ->
  rx_loop starttime r0 [] trace = RxEol rxdata ->
  exists wire rest,
    delivered trace = wire ++ x0d :: rest /\
    ~ In x0d wire /\
    rxdata = filter kept wire ++ [x0d] /\
    (length rxdata <= RXCAP)%nat.
Proof.
  intros Hr H. exact (rx_loop_eol_inv starttime trace r0 [] rxdata Hr H).
Qed.

Lemma rx_loop_eol_shape_witness :
  exists wire rest,
    delivered reply_trace = wire ++ x0d :: rest /\
    ~ In x0d wire /\
    reply_rxdata = filter kept wire ++ [x0d] /\
    (length reply_rxdata <= RXCAP)%nat.
Proof.
  assert (H1 : u8 x00 <> 0x0d) by discriminate.
  assert (H2 : rx_loop 0 x00 [] reply_trace = RxEol reply_rxdata)
    by reflexivity.
  exact (rx_loop_eol_shape 0 x00 reply_trace reply_rxdata H1 H2).
Defined.

(** X8. When the uninitialised [r] is not [0x0d] and the source makes the
    loop store at most 41 bytes, [kamReceive] accesses neither [rxdata]
    nor [recvmsg] outside their bounds. *)
Theorem kamReceive_in_bounds (starttime : Z) (r0 : byte)
    (trace : list poll) :
  u8 r0 <> 0x0d ->
  (stored trace <= 41)%nat ->
  kamReceive starttime r0 trace <> RecvOverrun.
Proof.
  intros Hr Hs. unfold kamReceive.
  pose proof (rx_loop_stored starttime trace r0 []) as Hb.
  destruct (rx_loop starttime r0 [] trace) as [|rxdata|rxdata r|rxdata r] eqn:E;
    try discriminate.
  - destruct (rx_loop_eol_inv starttime trace r0 [] rxdata Hr E)
      as [wire [rest [_ [_ [Hrx _]]]]].
    cbn [length] in Hb. pose proof (unescape_length rxdata) as Hu.
    unfold frame_decode. destruct rxdata as [|b l].
    + destruct (filter kept wire); discriminate.
    + assert (Hc : (RECVCAP <? length (unescape (b :: l)))%nat = false).
      { apply Nat.ltb_ge. cbn [length] in *. unfold RECVCAP. lia. }
      rewrite Hc. destruct (crc_1021 (unescape (b :: l)) =? 0); discriminate.
  - cbn [length] in Hb. unfold RXCAP in Hb. lia.
Qed.

Lemma kamReceive_in_bounds_witness :
  u8 x00 <> 0x0d /\ (stored reply_trace <= 41)%nat /\
  kamReceive 0 x00 reply_trace <> RecvOverrun.
Proof.
  assert (H1 : u8 x00 <> 0x0d) by discriminate.
  assert (H2 : (stored reply_trace <= 41)%nat)
    by (vm_compute; repeat constructor).
  split; [exact H1|]. split; [exact H2|].
  exact (kamReceive_in_bounds 0 x00 reply_trace H1 H2).
Defined.

(** X9. The timeout test of [kamReceive] is indifferent to the wrap-around
    of [millis()]: when [d] milliseconds have passed since [starttime]
    (less than [2 ^ 32]), the test fires exactly when [d > 1000]. *)
Theorem timed_out_wrap (starttime d : Z) :
  0 <= starttime < 2 ^ 32 -> 0 <= d < 2 ^ 32 ->
  timed_out starttime ((starttime + d) mod 2 ^ 32) = (KAMTIMEOUT <? d).
Proof.
  intros Hs Hd. unfold timed_out, ulong_of.
  rewrite Zminus_mod_idemp_l.
  replace (starttime + d - starttime) with d by lia.
  rewrite Z.mod_small by assumption. reflexivity.
Qed.

Lemma timed_out_wrap_witness :
  timed_out 4294967000 704 = false /\ timed_out 4294967000 705 = true.
Proof.
  assert (Hs : 0 <= 4294967000 < 2 ^ 32) by lia.
  assert (H1 : 0 <= 1000 < 2 ^ 32) by lia.
  assert (H2 : 0 <= 1001 < 2 ^ 32) by lia.
  split.
  - exact (timed_out_wrap 4294967000 1000 Hs H1).
  - exact (timed_out_wrap 4294967000 1001 Hs H2).
Defined.

(** X10. A frame as [kamSend] builds it (a message with its checksum,
    escaped, then [0x0d]), delivered in time after any number of [0x40]
    start markers, is returned by [kamReceive] as the message with its
    checksum, whatever bytes the message holds, provided the escaped frame
    is shorter than 50 bytes and the message with its checksum is at most
    40 bytes. *)
Theorem kamReceive_frame (starttime : Z) (r0 : byte) (trace : list poll)
    (pre body : list byte) :
  u8 r0 <> 0x0d ->
  in_time starttime trace ->
  Forall (fun b => b = x40) pre ->
  delivered trace = pre ++ escape (append_crc body) ++ [x0d] ->
  (length (escape (append_crc body)) < RXCAP)%nat ->
  (length body + 2 <= RECVCAP)%nat ->
  kamReceive starttime r0 trace = RecvOk (append_crc body).
Proof.
  intros Hr Ht Hpre Hd Hrx Hrecv.
  rewrite (kamReceive_escaped starttime r0 trace pre (append_crc body))
    by (try assumption; rewrite append_crc_length; assumption).
  rewrite append_crc_passes. reflexivity.
Qed.

Lemma kamReceive_frame_witness :
  kamReceive 0 x00 reply_trace = RecvOk (append_crc reply_body).
Proof.
  assert (H1 : u8 x00 <> 0x0d) by discriminate.
  assert (H2 : in_time 0 reply_trace) by (repeat constructor).
  assert (H3 : Forall (fun b => b = x40) [x40]) by (repeat constructor).
  assert (H4 : delivered reply_trace
               = [x40] ++ escape (append_crc reply_body) ++ [x0d])
    by reflexivity.
  assert (H5 : (length (escape (append_crc reply_body)) < RXCAP)%nat)
    by (vm_compute; repeat constructor).
  assert (H6 : (length reply_body + 2 <= RECVCAP)%nat)
    by (vm_compute; repeat constructor).
  exact (kamReceive_frame 0 x00 reply_trace [x40] reply_body
           H1 H2 H3 H4 H5 H6).
Defined.

(** X11. Whatever the source delivered and however the frame was
    spelled (escapes, start markers): when the receive loop has ended on
    the end marker and the content copied into [recvmsg] differs in
    exactly one byte from a content that passes the check, [kamReceive]
    rejects it with the CRC error, wherever the byte stands. *)
Theorem kamReceive_detects_byte (starttime : Z) (r0 : byte)
    (trace : list poll) (rxdata pre post : list byte) (b b' : byte) :
  rx_loop starttime r0 [] trace = RxEol rxdata ->
  unescape rxdata = pre ++ b' :: post ->
  (length (unescape rxdata) <= RECVCAP)%nat ->
  crc_1021 (pre ++ b :: post) = 0 ->
  b <> b' ->
  kamReceive starttime r0 trace = RecvCrcError /\
  rxnum (kamReceive starttime r0 trace) = Some 0.
Proof.
  intros Hloop Hun Hlen H0 Hne.
  assert (H : kamReceive starttime r0 trace = RecvCrcError).
  { unfold kamReceive. rewrite Hloop. unfold frame_decode.
    destruct rxdata as [|c l]; [destruct pre; discriminate Hun|].
    apply Nat.ltb_ge in Hlen. rewrite Hlen, Hun.
    destruct (Z.eqb_spec (crc_1021 (pre ++ b' :: post)) 0) as [E|E];
      [|reflexivity].
    exfalso. apply Hne. apply (crc_1021_byte_inj pre post).
    rewrite H0, E. reflexivity. }
  split; [exact H|]. rewrite H. reflexivity.
Qed.

Lemma kamReceive_detects_byte_witness :
  crc_1021 reply_msg = 0 /\ x64 <> x65 /\
  kamReceive 0 x00 corrupt_trace = RecvCrcError.
Proof.
  assert (H1 : rx_loop 0 x00 [] corrupt_trace = RxEol (corrupt_msg ++ [x0d]))
    by reflexivity.
  assert (H2 : unescape (corrupt_msg ++ [x0d])
               = [x3f; x10; x00; x01; x02; x04; xc2; x00; x00; x00]
                 ++ x65 :: [x9a; x6a]) by reflexivity.
  assert (H3 : (length (unescape (corrupt_msg ++ [x0d])) <= RECVCAP)%nat)
    by (vm_compute; repeat constructor).
  assert (H4 : crc_1021 ([x3f; x10; x00; x01; x02; x04; xc2; x00; x00; x00]
                         ++ x64 :: [x9a; x6a]) = 0)
    by (vm_compute; reflexivity).
  assert (Hne : x64 <> x65) by discriminate.
  split; [exact H4|]. split; [exact Hne|].
  exact (proj1 (kamReceive_detects_byte 0 x00 corrupt_trace
                  (corrupt_msg ++ [x0d])
                  [x3f; x10; x00; x01; x02; x04; xc2; x00; x00; x00]
                  [x9a; x6a] x64 x65 H1 H2 H3 H4 Hne)).
Defined.

Section DanglingEscape.

Lemma unescape_dangling (msg : list byte) (t : byte) :
  unescape (escape msg ++ [x1b; t]) = msg ++ [xor_ff t].
Proof.
  induction msg as [|b msg IH]; [reflexivity|].
  cbn [escape]. destruct (reserved b) eqn:Hb.
  - cbn [app]. rewrite unescape_cons2.
    change (u8 x1b =? 27) with true. cbv iota.
    rewrite xor_ff_involutive. f_equal. exact IH.
  - cbn [app].
    destruct (escape msg ++ [x1b; t]) as [|c rest] eqn:E.
    + apply app_eq_nil in E. destruct E as [_ E]. discriminate.
    + rewrite unescape_cons2, (reserved_1b b Hb). f_equal. exact IH.
Qed.

End DanglingEscape.

(** X22. An escape marker [0x1b] that stands directly before the end
    marker takes the end marker as its operand: after a properly escaped
    message, the bytes [0x1b, t] stored last are copied as the single byte
    [t ^ 0xff] (for [t = 0x0d], as [0xf2]). *)
Theorem unescape_escape_at_end (msg : list byte) (t : byte) :
  unescape (escape msg ++ [x1b; t]) = msg ++ [xor_ff t] /\
  unescape (escape msg ++ [x1b; x0d]) = msg ++ [xf2].
Proof.
  split; [apply unescape_dangling|apply (unescape_dangling msg x0d)].
Qed.

(** X23. [kamReceive] returns through its timeout only in a pass in which
    [millis() - starttime] exceeds 1000, and in no earlier pass of the run
    was that so. *)
Theorem kamReceive_timeout_not_early (starttime : Z) (r0 : byte)
    (trace : list poll) :
  kamReceive starttime r0 trace = RecvTimeout ->
  exists pre p post,
    trace = pre ++ p :: post /\
    in_time starttime pre /\
    KAMTIMEOUT < ulong_of (now p - starttime).
Proof.
  intros H. unfold kamReceive in H.
  destruct (rx_loop starttime r0 [] trace) as [|rxdata|rxdata r|rxdata r] eqn:E;
    try discriminate H.
  - destruct (rx_loop_timed_out_inv starttime trace r0 [] E)
      as [pre [p [post [Et [Hpre Hp]]]]].
    exists pre, p, post. split; [exact Et|]. split; [exact Hpre|].
    unfold timed_out in Hp. apply Z.ltb_lt in Hp. exact Hp.
  - exfalso. unfold frame_decode in H. destruct rxdata; [discriminate H|].
    destruct (RECVCAP <? length (unescape (b :: rxdata)))%nat;
      [discriminate H|].
    destruct (crc_1021 (unescape (b :: rxdata)) =? 0); discriminate H.
Qed.

Lemma kamReceive_timeout_not_early_witness :
  kamReceive 0 x00 [Poll 500 None; Poll 1001 (Some x0d)] = RecvTimeout /\
  exists pre p post,
    [Poll 500 None; Poll 1001 (Some x0d)] = pre ++ p :: post /\
    in_time 0 pre /\
    KAMTIMEOUT < ulong_of (now p - 0).
Proof.
  assert (H : kamReceive 0 x00 [Poll 500 None; Poll 1001 (Some x0d)]
              = RecvTimeout) by reflexivity.
  split; [exact H|].
  exact (kamReceive_timeout_not_early 0 x00 _ H).
Defined.

(** X24. When the uninitialised [r] is not [0x0d], the source never
    delivers [0x0d], makes the loop store at most 50 bytes, and some pass
    of the run finds more than 1000 ms elapsed, [kamReceive] returns 0
    through its timeout. *)
Theorem kamReceive_times_out (starttime : Z) (r0 : byte)
    (trace : list poll) :
  u8 r0 <> 0x0d ->
  ~ In x0d (delivered trace) ->
  Exists (fun p => timed_out starttime (now p) = true) trace ->
  (stored trace <= RXCAP)%nat ->
  kamReceive starttime r0 trace = RecvTimeout /\
  rxnum (kamReceive starttime r0 trace) = Some 0.
Proof.
  intros Hr Hno Hex Hcap.
  assert (Hall : Forall (fun p => incoming p <> Some x0d) trace).
  { apply Forall_forall. intros p Hp E. apply Hno.
    unfold delivered. apply in_flat_map. exists p. split; [exact Hp|].
    rewrite E. left. reflexivity. }
  assert (H : kamReceive starttime r0 trace = RecvTimeout).
  { unfold kamReceive.
    rewrite (rx_loop_times_out starttime trace r0 [] Hr Hall Hex Hcap).
    reflexivity. }
  split; [exact H|]. rewrite H. reflexivity.
Qed.

Lemma kamReceive_times_out_witness :
  kamReceive 0 x00 [Poll 10 (Some x40); Poll 20 (Some x3f); Poll 1001 None]
    = RecvTimeout.
Proof.
  assert (H1 : u8 x00 <> 0x0d) by discriminate.
  assert (H2 : ~ In x0d (delivered [Poll 10 (Some x40); Poll 20 (Some x3f);
                                     Poll 1001 None])).
  { cbn. intros [E|[E|[]]]; discriminate E. }
  assert (H3 : Exists (fun p => timed_out 0 (now p) = true)
                 [Poll 10 (Some x40); Poll 20 (Some x3f); Poll 1001 None]).
  { apply Exists_cons_tl, Exists_cons_tl, Exists_cons_hd. reflexivity. }
  assert (H4 : (stored [Poll 10 (Some x40); Poll 20 (Some x3f);
                        Poll 1001 None] <= RXCAP)%nat)
    by (vm_compute; repeat constructor).
  exact (proj1 (kamReceive_times_out 0 x00 _ H1 H2 H3 H4)).
Defined.

(** ** The value returned, in binary32 *)

Section Float32Facts.

Lemma SFmul_opp_r (prec emax : Z) (x y : spec_float) :
  SFmul prec emax x (SFopp y) = SFopp (SFmul prec emax x y).
Proof.
  destruct x as [[|]|[|]| |[|] mx ex], y as [[|]|[|]| |[|] my ey];
    try reflexivity;
    cbn [SFmul SFopp xorb negb]; unfold binary_round_aux;
    destruct (shr_fexp prec emax (Z.pos (mx * my)) (ex + ey) loc_Exact)
      as [mrs e'];
    destruct (shr_fexp prec emax
                (round_nearest_even (shr_m mrs) (loc_of_shr_record mrs))
                e' loc_Exact) as [mrs' e''];
    destruct (shr_m mrs') as [|m|m]; try reflexivity;
    destruct (e'' <=? emax - prec); reflexivity.
Qed.

Variable pow10 : Z -> spec_float.

(** [x * ifl] in terms of the bits of the exponent-and-sign byte. *)
Lemma value_bits (x : Z) (e : byte) :
  F32.value pow10 x e
  = (if Z.testbit (u8 e) 7
     then SFopp (SFmul 24 128 (F32.of_long x)
                   (F32.of_double (pow10 (exponent e))))
     else SFmul 24 128 (F32.of_long x)
            (F32.of_double (pow10 (exponent e)))).
Proof.
  unfold F32.value.
  change 0x80 with (2 ^ 7). rewrite land_pow2_eqb by lia.
  destruct (Z.testbit (u8 e) 7); cbn [negb];
    [apply SFmul_opp_r|reflexivity].
Qed.

Lemma kamDecode32_reply_of (kreg : nat) (reg : Z) (unit n e : byte)
    (mant tail : list byte) :
  nth_error kregnums kreg = Some reg ->
  length mant = Z.to_nat (u8 n) ->
  Float32.kamDecode pow10 kreg (reply_of reg unit n e mant ++ tail)
  = Some (F32.value pow10 (long_of (be_value mant)) e).
Proof.
  intros Hk Hn.
  pose proof (kregnums_word _ _ Hk) as Hr.
  destruct (address_bytes reg Hr) as [Hhi Hlo].
  unfold Float32.kamDecode, reply_of. cbn [app nth_error].
  change (u8 x3f =? 63) with true. change (u8 x10 =? 16) with true.
  cbn [negb]. rewrite Hk, Hhi, Hlo.
  rewrite Z.shiftr_div_pow2 by lia. change (2 ^ 8) with 256.
  change 0xff with (Z.ones 8). rewrite Z.land_ones by lia.
  change (2 ^ 8) with 256. rewrite !Z.eqb_refl. cbn [negb].
  rewrite mantissa_be by (cbn [length]; rewrite length_app; lia).
  cbn [skipn]. rewrite <- Hn, firstn_app, Nat.sub_diag, firstn_all.
  cbn [firstn]. rewrite app_nil_r. reflexivity.
Qed.

(** The two embeddings of [kamDecode] take the same [return], on the same
    mantissa and exponent-and-sign byte. *)
Lemma kamDecode_same_return (kreg : nat) (msg : list byte) :
  match kamDecode kreg msg, Float32.kamDecode pow10 kreg msg with
  | None, None => True
  | Some DecodeFalse, Some v => v = Float32.zero
  | Some (DecodeValue x ifl), Some v =>
      exists e, nth_error msg 6 = Some e /\ ifl = factor e /\
                v = F32.value pow10 x e
  | _, _ => False
  end.
Proof.
  unfold kamDecode, Float32.kamDecode.
  destruct (nth_error msg 0) as [b0|]; [|exact I].
  destruct (negb (u8 b0 =? 63)); [reflexivity|].
  destruct (nth_error msg 1) as [b1|]; [|exact I].
  destruct (negb (u8 b1 =? 16)); [reflexivity|].
  destruct (nth_error msg 2) as [b2|]; [|exact I].
  destruct (nth_error kregnums kreg) as [reg|]; [|exact I].
  destruct (negb (u8 b2 =? Z.shiftr reg 8)); [reflexivity|].
  destruct (nth_error msg 3) as [b3|]; [|exact I].
  destruct (negb (u8 b3 =? Z.land reg 255)); [reflexivity|].
  destruct (nth_error msg 5) as [n|]; [|exact I].
  destruct (mantissa msg (Z.to_nat (u8 n))) as [x|]; [|exact I].
  destruct (nth_error msg 6) as [e|]; [|exact I].
  exists e. repeat split.
Qed.

(** The [double] nearest to 1/100 and its two neighbours all convert to
    the same [float]: a [pow] within one unit in the last place will
    do. *)
Lemma of_double_hundredth :
  F32.of_double F32.double_hundredth = Float32.hundredth /\
  F32.of_double Float32.double_hundredth_below = Float32.hundredth /\
  F32.of_double Float32.double_hundredth_above = Float32.hundredth.
Proof. repeat split; vm_compute; reflexivity. Qed.

End Float32Facts.



(** X12. End to end: when the meter answers the request for an entry [reg]
    of [kregnums] with a well-formed frame (start marker [0x40], the
    escaped reply with its checksum, [0x0d]) in time, [kamReadReg] returns
    the [float] product of the mantissa, accumulated as a [long], and of
    [pow(10, i)] for the exponent [i] of the exponent-and-sign byte,
    negated when bit 7 of that byte is set. *)
Theorem kamReadReg_reply (pow10 : Z -> spec_float) (kreg : nat) (reg : Z)
    (unit n e : byte) (mant : list byte) (starttime : Z) (r0 : byte)
    (trace : list poll) :
  nth_error kregnums kreg = Some reg ->
  length mant = Z.to_nat (u8 n) ->
  u8 r0 <> 0x0d ->
  in_time starttime trace ->
  delivered trace
    = [x40] ++ escape (append_crc (reply_of reg unit n e mant)) ++ [x0d] ->
  (length (escape (append_crc (reply_of reg unit n e mant))) < RXCAP)%nat ->
  (length (reply_of reg unit n e mant) + 2 <= RECVCAP)%nat ->
  Float32.kamReadReg pow10 kreg starttime r0 trace
  = Float32.ReadValue
      (if Z.testbit (u8 e) 7
       then SFopp (SFmul 24 128 (F32.of_long (long_of (be_value mant)))
                     (F32.of_double (pow10 (exponent e))))
       else SFmul 24 128 (F32.of_long (long_of (be_value mant)))
              (F32.of_double (pow10 (exponent e)))).
Proof.
  intros Hk Hn Hr Ht Hd Hrx Hrecv. unfold Float32.kamReadReg.
  rewrite (request_frame_fits _ _ Hk).
  assert (Hpre : Forall (fun b => b = x40) [x40]) by (repeat constructor).
  assert (Hlen : (length (append_crc (reply_of reg unit n e mant))
                  <= RECVCAP)%nat)
    by (rewrite append_crc_length; assumption).
  rewrite (kamReceive_escaped starttime r0 trace [x40]
             (append_crc (reply_of reg unit n e mant)) Hr Ht Hpre Hd Hrx Hlen).
  rewrite append_crc_passes. cbn [Z.eqb].
  rewrite append_crc_length.
  destruct (Z.eqb_spec (Z.of_nat (length (reply_of reg unit n e mant) + 2)) 0);
    [lia|].
  unfold append_crc.
  rewrite (kamDecode32_reply_of pow10 _ _ _ _ _ _ _ Hk Hn), value_bits.
  reflexivity.
Qed.

Lemma kamReadReg_reply_witness :
  Float32.kamReadReg sample_pow10 0 0 x00 reply_trace
  = Float32.ReadValue F32.minus_one.
Proof.
  assert (H0 : nth_error kregnums 0 = Some 0x0001) by reflexivity.
  assert (Hn : length [x00; x00; x00; x64] = Z.to_nat (u8 x04))
    by reflexivity.
  assert (H1 : u8 x00 <> 0x0d) by discriminate.
  assert (H2 : in_time 0 reply_trace) by (repeat constructor).
  assert (H4 : delivered reply_trace
               = [x40] ++ escape (append_crc
                   (reply_of 0x0001 x02 x04 xc2 [x00; x00; x00; x64]))
                 ++ [x0d])
    by reflexivity.
  assert (H5 : (length (escape (append_crc
                   (reply_of 0x0001 x02 x04 xc2 [x00; x00; x00; x64])))
                < RXCAP)%nat)
    by (vm_compute; repeat constructor).
  assert (H6 : (length (reply_of 0x0001 x02 x04 xc2 [x00; x00; x00; x64]) + 2
                <= RECVCAP)%nat)
    by (vm_compute; repeat constructor).
  exact (kamReadReg_reply sample_pow10 0 0x0001 x02 x04 xc2
           [x00; x00; x00; x64] 0 x00 reply_trace H0 Hn H1 H2 H4 H5 H6).
Defined.

(** ** The polling round *)

Section RetryFacts.

Variable kreg : nat.



End RetryFacts.

Section RoundFacts.



End RoundFacts.







(** ** WiFi and MQTT *)

Section TopicFacts.

Lemma string_length_append (s1 s2 : String.string) :
  String.length (String.append s1 s2)
  = (String.length s1 + String.length s2)%nat.
Proof.
  induction s1 as [|c s1 IH]; [reflexivity|].
  cbn [String.append String.length]. rewrite IH. reflexivity.
Qed.

Lemma string_length_0 (s : String.string) :
  String.length s = 0%nat -> s = String.EmptyString.
Proof. destruct s; [reflexivity|discriminate]. Qed.

Lemma will_topic_fits (prefix : String.string) :
  (String.length prefix < TOPICCAP)%nat ->
  will_topic prefix = Some slash_status.
Proof.
  intros H. unfold will_topic, strcpy.
  apply Nat.ltb_lt in H. rewrite H. reflexivity.
Qed.

Lemma online_topic_fits (prefix : String.string) :
  (String.length prefix + 7 < TOPICCAP)%nat ->
  online_topic prefix = Some (String.append prefix slash_status).
Proof.
  intros H. unfold online_topic, strcpy, strcat.
  assert (H1 : (String.length prefix <? TOPICCAP)%nat = true)
    by (apply Nat.ltb_lt; lia).
  rewrite H1. change (String.length slash_status) with 7%nat.
  apply Nat.ltb_lt in H. rewrite H. reflexivity.
Qed.

End TopicFacts.

Section MqttFacts.

Variable prefix : String.string.
Variables connected connect : nat -> bool.
Variables wtopic topic : String.string.
Hypothesis will_ok : will_topic prefix = Some wtopic.
Hypothesis online_ok : online_topic prefix = Some topic.

Lemma mqtt_loop_spec (left att : nat) :
  match mqtt_loop left att prefix connected connect with
  | MqttTrue a w t =>
      (att <= a < att + left)%nat /\ connect a = true /\
      (forall k, (att <= k <= a)%nat -> connected k = false) /\
      (forall k, (att <= k < a)%nat -> connect k = false) /\
      w = wtopic /\ t = topic
  | MqttFalse a =>
      (att <= a <= att + left)%nat /\
      (forall k, (att <= k < a)%nat -> connected k = false) /\
      (forall k, (att <= k < a)%nat -> connect k = false) /\
      (connected a = true \/ a = (att + left)%nat)
  | MqttOverrun => False
  end.
Proof.
  revert att. induction left as [|left IH]; intros att.
  - cbn [mqtt_loop]. destruct (connected att) eqn:C.
    + split; [lia|]. split; [intros k Hk; lia|].
      split; [intros k Hk; lia|]. left. exact C.
    + split; [lia|]. split; [intros k Hk; lia|].
      split; [intros k Hk; lia|]. right. lia.
  - cbn [mqtt_loop]. destruct (connected att) eqn:C.
    + split; [lia|]. split; [intros k Hk; lia|].
      split; [intros k Hk; lia|]. left. exact C.
    + rewrite will_ok. destruct (connect att) eqn:A.
      * rewrite online_ok. split; [lia|]. split; [exact A|].
        split; [|split; [intros k Hk; lia|split; reflexivity]].
        intros k Hk. assert (k = att) by lia. subst k. exact C.
      * specialize (IH (S att)).
        destruct (mqtt_loop left (S att) prefix connected connect)
          as [a w t|a|].
        -- destruct IH as [Ha [Hc [Hn [Hm [Hw Ht]]]]].
           split; [lia|]. split; [exact Hc|].
           split; [|split; [|split; assumption]].
           ++ intros k Hk. destruct (Nat.eq_dec k att) as [->|Hne];
                [exact C|apply Hn; lia].
           ++ intros k Hk. destruct (Nat.eq_dec k att) as [->|Hne];
                [exact A|apply Hm; lia].
        -- destruct IH as [Ha [Hn [Hm Hend]]].
           split; [lia|]. split; [|split].
           ++ intros k Hk. destruct (Nat.eq_dec k att) as [->|Hne];
                [exact C|apply Hn; lia].
           ++ intros k Hk. destruct (Nat.eq_dec k att) as [->|Hne];
                [exact A|apply Hm; lia].
           ++ destruct Hend as [Hend|Hend]; [left; exact Hend|right; lia].
        -- exact IH.
Qed.

End MqttFacts.

Section WifiFacts.

Variable status : nat -> bool.

Lemma wifi_wait_spec (left att : nat) :
  (att <= wifi_wait left att status <= att + left)%nat /\
  (forall k, (att <= k < wifi_wait left att status)%nat ->
             status k = false) /\
  (status (wifi_wait left att status) = true
   \/ wifi_wait left att status = (att + left)%nat).
Proof.
  revert att. induction left as [|left IH]; intros att.
  - cbn [wifi_wait]. destruct (status att) eqn:Est.
    + split; [lia|]. split; [intros k Hk; lia|]. left. exact Est.
    + split; [lia|]. split; [intros k Hk; lia|]. right. lia.
  - cbn [wifi_wait]. destruct (status att) eqn:Est.
    + split; [lia|]. split; [intros k Hk; lia|]. left. exact Est.
    + destruct (IH (S att)) as [Hb [Hn Hend]].
      split; [lia|]. split.
      * intros k Hk. destruct (Nat.eq_dec k att) as [->|Hne];
          [exact Est|apply Hn; lia].
      * destruct Hend as [Hend|Hend]; [left; exact Hend|right; lia].
Qed.

End WifiFacts.

Section WifiCalls.

Lemma wifi_calls_cons (c : Z) (s : nat -> bool) (calls : list (nat -> bool)) :
  0 <= c ->
  wifi_calls c (s :: calls)
  = if 10 <? c then None
    else wifi_calls (if wifi_fails s then c + 1 else c) calls.
Proof.
  intros Hc. cbn [wifi_calls]. unfold setup_wifi, wifi_fails.
  destruct (Z.ltb_spec 10 c) as [H|H]; [reflexivity|].
  destruct (s (S (wifi_wait 30 0 s))); cbn [negb]; [reflexivity|].
  rewrite Z.mod_small by lia. reflexivity.
Qed.

Lemma fails_cons (s : nat -> bool) (calls : list (nat -> bool)) :
  Z.of_nat (length (filter wifi_fails (s :: calls)))
  = (if wifi_fails s then 1 else 0)
    + Z.of_nat (length (filter wifi_fails calls)).
Proof.
  cbn [filter]. destruct (wifi_fails s); cbn [length]; lia.
Qed.

Lemma wifi_calls_count (status : nat -> bool) (calls : list (nat -> bool))
    (c : Z) :
  0 <= c ->
  wifi_calls c (calls ++ [status])
  = if 11 <=? c + Z.of_nat (length (filter wifi_fails calls)) then None
    else Some (c + Z.of_nat (length (filter wifi_fails (calls ++ [status])))).
Proof.
  revert c. induction calls as [|s calls IH]; intros c Hc.
  - cbn [app]. rewrite wifi_calls_cons by assumption. cbn [wifi_calls].
    rewrite fails_cons. cbn [filter length]. rewrite Z.add_0_r.
    destruct (Z.ltb_spec 10 c) as [H|H];
      destruct (Z.leb_spec 11 c) as [H'|H']; try lia; [reflexivity|].
    destruct (wifi_fails status); f_equal; lia.
  - cbn [app]. rewrite wifi_calls_cons by assumption.
    rewrite !fails_cons.
    destruct (Z.ltb_spec 10 c) as [H|H].
    + destruct (Z.leb_spec 11 (c + ((if wifi_fails s then 1 else 0)
                 + Z.of_nat (length (filter wifi_fails calls)))));
        [reflexivity|destruct (wifi_fails s); lia].
    + rewrite IH by (destruct (wifi_fails s); lia).
      destruct (wifi_fails s).
      * replace (c + 1 + Z.of_nat (length (filter wifi_fails calls)))
          with (c + (1 + Z.of_nat (length (filter wifi_fails calls)))) by lia.
        destruct (11 <=? c + (1 + Z.of_nat (length (filter wifi_fails calls))));
          [reflexivity|f_equal; lia].
      * replace (c + (0 + Z.of_nat (length (filter wifi_fails calls))))
          with (c + Z.of_nat (length (filter wifi_fails calls))) by lia.
        destruct (11 <=? c + Z.of_nat (length (filter wifi_fails calls)));
          [reflexivity|f_equal; lia].
Qed.

End WifiCalls.

(** X16. [publish] hands [client.publish] the topic made of the prefix,
    ["/"] and the subtopic, and overruns [topic] exactly when these,
    together, are 100 characters or more. *)
Theorem publish_topic (prefix subtopic msg : String.string) :
  publish prefix subtopic msg
  = if (String.length prefix + 1 + String.length subtopic <? TOPICCAP)%nat
    then Some (String.append (String.append prefix slash) subtopic, msg)
    else None.
Proof.
  unfold publish, strcpy, strcat.
  change (String.length slash) with 1%nat.
  destruct (Nat.ltb_spec (String.length prefix + 1 + String.length subtopic)
              TOPICCAP) as [H|H].
  - assert (H1 : (String.length prefix <? TOPICCAP)%nat = true)
      by (apply Nat.ltb_lt; lia).
    assert (H2 : (String.length prefix + 1 <? TOPICCAP)%nat = true)
      by (apply Nat.ltb_lt; lia).
    rewrite H1, H2, string_length_append.
    change (String.length slash) with 1%nat.
    apply Nat.ltb_lt in H. rewrite H. reflexivity.
  - destruct (String.length prefix <? TOPICCAP)%nat; [|reflexivity].
    destruct (String.length prefix + 1 <? TOPICCAP)%nat; [|reflexivity].
    rewrite string_length_append. change (String.length slash) with 1%nat.
    apply Nat.ltb_ge in H. rewrite H. reflexivity.
Qed.

(** X17. With a prefix of at most 92 characters, [setup_mqtt] returns
    [true] exactly at the first successful [client.connect], which is one
    of at most 10 attempts made while [client.connected()] answers no; it
    returns [false] after 10 failed attempts, and also, without any
    attempt, when [client.connected()] already answers yes. *)
Theorem setup_mqtt_spec (prefix : String.string)
    (connected connect : nat -> bool) :
  (String.length prefix + 7 < TOPICCAP)%nat ->
  match setup_mqtt prefix connected connect with
  | MqttTrue att wtopic topic =>
      (att < 10)%nat /\ connect att = true /\
      (forall k, (k <= att)%nat -> connected k = false) /\
      (forall k, (k < att)%nat -> connect k = false) /\
      wtopic = slash_status /\
      topic = String.append prefix slash_status
  | MqttFalse att =>
      (att <= 10)%nat /\
      (forall k, (k < att)%nat -> connected k = false) /\
      (forall k, (k < att)%nat -> connect k = false) /\
      (connected att = true \/ att = 10%nat)
  | MqttOverrun => False
  end.
Proof.
  intros Hfit.
  assert (Hw : will_topic prefix = Some slash_status)
    by (apply will_topic_fits; lia).
  pose proof (online_topic_fits prefix Hfit) as Ho.
  pose proof (mqtt_loop_spec prefix connected connect _ _ Hw Ho 10 0) as H.
  unfold setup_mqtt.
  destruct (mqtt_loop 10 0 prefix connected connect) as [a w t|a|].
  - destruct H as [Ha [Hc [Hn [Hm [Hwt Ht]]]]].
    split; [lia|]. split; [exact Hc|].
    split; [intros k Hk; apply Hn; lia|].
    split; [intros k Hk; apply Hm; lia|]. split; [exact Hwt|exact Ht].
  - destruct H as [Ha [Hn [Hm Hend]]].
    split; [lia|]. split; [intros k Hk; apply Hn; lia|].
    split; [intros k Hk; apply Hm; lia|].
    destruct Hend as [Hend|Hend]; [left; exact Hend|right; exact Hend].
  - exact H.
Qed.

Lemma setup_mqtt_spec_witness :
  setup_mqtt mqtt_prefix never from_third
    = MqttTrue 2 slash_status (String.append mqtt_prefix slash_status) /\
  setup_mqtt mqtt_prefix always always = MqttFalse 0 /\
  (2 < 10)%nat.
Proof.
  assert (H : (String.length mqtt_prefix + 7 < TOPICCAP)%nat)
    by (vm_compute; repeat constructor).
  split; [reflexivity|]. split; [reflexivity|].
  pose proof (setup_mqtt_spec mqtt_prefix never from_third H) as T.
  change (setup_mqtt mqtt_prefix never from_third)
    with (MqttTrue 2 slash_status (String.append mqtt_prefix slash_status))
    in T.
  exact (proj1 T).
Defined.

(** X18. The last-will topic that [setup_mqtt] registers is ["/status"]
    whatever the prefix (the second [strcpy] overwrites the first), while
    "ONLINE" is published on the prefix followed by ["/status"]: the two
    topics coincide only for the empty prefix. *)
Theorem will_topic_not_prefixed (prefix : String.string) :
  (String.length prefix + 7 < TOPICCAP)%nat ->
  will_topic prefix = Some slash_status /\
  online_topic prefix = Some (String.append prefix slash_status) /\
  (will_topic prefix = online_topic prefix <-> prefix = String.EmptyString).
Proof.
  intros Hfit.
  assert (Hw : will_topic prefix = Some slash_status)
    by (apply will_topic_fits; lia).
  pose proof (online_topic_fits prefix Hfit) as Ho.
  split; [exact Hw|]. split; [exact Ho|].
  rewrite Hw, Ho. split.
  - intros E. injection E as E.
    apply (f_equal String.length) in E.
    rewrite string_length_append in E.
    apply string_length_0. lia.
  - intros ->. reflexivity.
Qed.

Lemma will_topic_not_prefixed_witness :
  will_topic mqtt_prefix = Some slash_status /\
  online_topic mqtt_prefix = Some (String.append mqtt_prefix slash_status) /\
  will_topic mqtt_prefix <> online_topic mqtt_prefix.
Proof.
  assert (H : (String.length mqtt_prefix + 7 < TOPICCAP)%nat)
    by (vm_compute; repeat constructor).
  destruct (will_topic_not_prefixed mqtt_prefix H) as [T1 [T2 T3]].
  split; [exact T1|]. split; [exact T2|].
  intros E. apply T3 in E. discriminate E.
Defined.

(** X19. [setup_wifi] reboots exactly when [connAtt] exceeds 10 on entry.
    Otherwise it waits for at most 30 seconds (and 10 ms), returns what
    the last call of [WiFi.status()] answers, and adds one to [connAtt]
    when that is a failure; a success leaves [connAtt] as it is. *)
Theorem setup_wifi_spec (connAtt : Z) (status : nat -> bool) :
  0 <= connAtt <= 255 ->
  match setup_wifi connAtt status with
  | WifiReboot => 10 < connAtt
  | WifiReturn ok connAtt' waited =>
      connAtt <= 10 /\
      10 <= waited <= 30010 /\
      connAtt' = (if ok then connAtt else connAtt + 1) /\
      exists att,
        (att <= 30)%nat /\ waited = 10 + 1000 * Z.of_nat att /\
        ok = status (S att) /\
        (forall k, (k < att)%nat -> status k = false) /\
        (status att = true \/ att = 30%nat)
  end.
Proof.
  intros Hc. unfold setup_wifi.
  destruct (Z.ltb_spec 10 connAtt) as [H|H]; [exact H|].
  destruct (wifi_wait_spec status 30 0) as [Hb [Hn Hend]].
  set (att := wifi_wait 30 0 status) in *.
  assert (Hex : forall ok, ok = status (S att) ->
            exists a, (a <= 30)%nat /\
              10 + 1000 * Z.of_nat att = 10 + 1000 * Z.of_nat a /\
              ok = status (S a) /\
              (forall k, (k < a)%nat -> status k = false) /\
              (status a = true \/ a = 30%nat)).
  { intros ok Hok. exists att. split; [lia|]. split; [reflexivity|].
    split; [exact Hok|]. split; [intros k Hk; apply Hn; lia|].
    destruct Hend as [Hend|Hend]; [left; exact Hend|right; lia]. }
  destruct (status (S att)) eqn:E.
  - split; [lia|]. split; [lia|]. split; [reflexivity|].
    apply Hex. reflexivity.
  - split; [lia|]. split; [lia|].
    split; [rewrite Z.mod_small by lia; reflexivity|].
    apply Hex. reflexivity.
Qed.

Lemma setup_wifi_spec_witness :
  setup_wifi 3 never = WifiReturn false 4 30010 /\
  setup_wifi 3 from_third = WifiReturn true 3 2010 /\
  setup_wifi 11 always = WifiReboot /\
  3 <= 10.
Proof.
  assert (H : 0 <= 3 <= 255) by lia.
  split; [reflexivity|]. split; [reflexivity|]. split; [reflexivity|].
  pose proof (setup_wifi_spec 3 never H) as T.
  change (setup_wifi 3 never) with (WifiReturn false 4 30010) in T.
  exact (proj1 T).
Defined.

(** X20. [connAtt] counts the failed calls of [setup_wifi] since the
    start, and no success resets it: a call reboots exactly when 11 calls
    before it have failed, and otherwise leaves in [connAtt] the number of
    failed calls so far. *)
Theorem wifi_calls_reboot (calls : list (nat -> bool))
    (status : nat -> bool) :
  wifi_calls 0 (calls ++ [status])
  = if 11 <=? Z.of_nat (length (filter wifi_fails calls)) then None
    else Some (Z.of_nat (length (filter wifi_fails (calls ++ [status])))).
Proof.
  rewrite wifi_calls_count by lia. reflexivity.
Qed.

(** X21. The test of [loop] that starts a polling round is indifferent to
    the wrap-around of [millis()]: when [d] milliseconds have passed since
    [lastMessage] (less than [2 ^ 32]), a round starts exactly when
    [d > 60000]. *)
Theorem poll_due_wrap (lastMessage d : Z) :
  0 <= lastMessage < 2 ^ 32 -> 0 <= d < 2 ^ 32 ->
  poll_due lastMessage ((lastMessage + d) mod 2 ^ 32) = (pollFreq <? d).
Proof.
  intros Hs Hd. unfold poll_due, ulong_of.
  rewrite Zminus_mod_idemp_l.
  replace (lastMessage + d - lastMessage) with d by lia.
  rewrite Z.mod_small by assumption. reflexivity.
Qed.

Lemma poll_due_wrap_witness :
  poll_due 4294960000 52704 = false /\ poll_due 4294960000 52705 = true.
Proof.
  assert (Hs : 0 <= 4294960000 < 2 ^ 32) by lia.
  assert (H1 : 0 <= 60000 < 2 ^ 32) by lia.
  assert (H2 : 0 <= 60001 < 2 ^ 32) by lia.
  split.
  - exact (poll_due_wrap 4294960000 60000 Hs H1).
  - exact (poll_due_wrap 4294960000 60001 Hs H2).
Defined.
